(** * models/dns.go: the DNS record model and its wire codec

    A shallow embedding of [src/models/dns.go] (package [models] of
    dnscontrol) and the properties its specification states about it.

    Conventions of the embedding.
    - Go's [uint16]/[uint32] are [Z] (the code does no arithmetic on them,
      so no wrap-around is ever taken); Go [string]s are byte strings.
    - A Go [map] used as a table is a [gmap]; the lookup of an absent key
      yields the zero value, written out with [default].
    - A function returning [(T, error)] returns a pair of options: [None]
      in the first component is Go's [nil] pointer, [None] in the second is
      the [nil] error.
    - [log.Fatalf] ends the process: a function that may call it returns an
      [outcome], either [Returns v] or [Fatal f].  A function in which a
      run-time panic may arise returns a [run], either [Done v] or
      [Panics].
    - What the file imports from outside the repository (miekg/dns, the Go
      standard library) is gathered in the class [Externals]; every
      definition is parametric in it.
    - The codec, the rendering and the grouping work on records by value.
      [Copy] is about sharing, and is modelled over a store of cells in
      which maps, slices and pointers are addresses. *)

From Stdlib Require Import ZArith Lia Ascii String List DecimalString.
From Stdlib Require Import Floats.SpecFloat.
From stdpp Require Import base option list gmap strings.

Local Open Scope Z_scope.

(** ** Bytes and case *)

Module utf8.
(** A string is ASCII when each of its bytes is below [utf8.RuneSelf],
    0x80. *)
Fixpoint is_ascii (s : string) : bool :=
  match s with
  | EmptyString => true
  | String c s' => (N_of_ascii c <? 128)%N && is_ascii s'
  end.
End utf8.

Module unicode.
(** [unicode.ToLower] on a rune below [utf8.RuneSelf]: the letters A to Z
    are mapped to a to z, every other byte is kept. *)
Definition lower_byte (c : ascii) : ascii :=
  let n := N_of_ascii c in
  if ((65 <=? n) && (n <=? 90))%N then ascii_of_N (n + 32) else c.

(** An ASCII string in lower case, byte by byte. *)
Fixpoint lower_ascii (s : string) : string :=
  match s with
  | EmptyString => EmptyString
  | String c s' => String (lower_byte c) (lower_ascii s')
  end.
End unicode.

(** ** Results *)

(** Go's [error] values are built here by [fmt.Errorf] only: an error is
    its message. *)
Definition error := string.

(** What ends the process through [log.Fatalf], with the arguments of the
    call (the rendering of [%#v] is not modelled). *)
Inductive fatal :=
| NoSuchDNSType (type : string)
| NewRRRejected (line target : string) (err : error).

Inductive outcome (A : Type) :=
| Returns (a : A)
| Fatal (f : fatal).
Arguments Returns {A} a.
Arguments Fatal {A} f.

(** A call that may end in a run-time panic, which no caller here
    recovers from. *)
Inductive run (A : Type) :=
| Done (a : A)
| Panics.
Arguments Done {A} a.
Arguments Panics {A}.

(** ** [net.IP] *)

Module net.
(** A [net.IP] is a byte slice of length 4 or 16. *)
Definition IP := list Z.

Definition v4InV6Prefix : list Z := [0; 0; 0; 0; 0; 0; 0; 0; 0; 0; 255; 255].

(** [net.IPv4(a, b, c, d)]: the 16-byte form of the IPv4 address. *)
Definition IPv4 (a b c d : Z) : IP := v4InV6Prefix ++ [a; b; c; d].
End net.

(** ** miekg/dns: resource records *)

Module dns.

(** [dns.RR_Header], without its [Rdlength], which the package never sets
    nor reads. *)
Record RR_Header := {
  Name : string;
  Rrtype : Z;   (* uint16 *)
  Class : Z;    (* uint16 *)
  Ttl : Z;      (* uint32 *)
}.

(** The concrete types behind the interface [dns.RR]. The seven that
    [RRToRecord] knows are spelled out; [Other] stands for every other
    concrete type of the library (SRV, PTR, CAA, ...), of which only the
    header is looked at. The concrete type and [Hdr.Rrtype] are
    independent pieces of data, as they are in Go.  A [nil] interface is
    not an [RR]; where the code may hold one the type is [option RR]. *)
Inductive RR :=
| A (Hdr : RR_Header) (A : net.IP)
| AAAA (Hdr : RR_Header) (AAAA : net.IP)
| CNAME (Hdr : RR_Header) (Target : string)
| MX (Hdr : RR_Header) (Preference : Z) (Mx : string)
| NS (Hdr : RR_Header) (Ns : string)
| SOA (Hdr : RR_Header) (Ns Mbox : string)
      (Serial Refresh Retry Expire Minttl : Z)
| TXT (Hdr : RR_Header) (Txt : list string)
| Other (Hdr : RR_Header) (rdata : string).

(** [rr.Header()]. *)
Definition Header (rr : RR) : RR_Header :=
  match rr with
  | A h _ | AAAA h _ | CNAME h _ | MX h _ _ | NS h _
  | SOA h _ _ _ _ _ _ _ | TXT h _ | Other h _ => h
  end.

(** Type codes and the class, as assigned by IANA and named by the
    library. *)
Definition TypeA : Z := 1.
Definition TypeNS : Z := 2.
Definition TypeCNAME : Z := 5.
Definition TypeSOA : Z := 6.
Definition TypeMX : Z := 15.
Definition TypeTXT : Z := 16.
Definition TypeAAAA : Z := 28.
Definition ClassINET : Z := 1.

End dns.

(** ** What the file imports from outside the repository *)

Class Externals := {
  (** [dns.StringToType], a [map[string]uint16]. *)
  dns_StringToType : gmap string Z;
  (** [dns.TypeToString], a [map[uint16]string]. *)
  dns_TypeToString : gmap Z string;
  (** [dns.NewRR(s)]: the zone-file parser, on one line. *)
  dns_NewRR : string → option dns.RR * option error;
  (** [rr.String()], what [%v] prints for an RR. *)
  dns_RRString : dns.RR → string;
  (** [dnsutil.TrimDomainName(s, origin)]. The function indexes into the
      labels of its arguments without a check: where it runs out of range
      it panics. *)
  dnsutil_TrimDomainName : string → string → run string;
  (** [ip.String()]. *)
  net_IPString : net.IP → string;
  (** [net.ParseIP(s)]; [None] is the [nil] IP. *)
  net_ParseIP : string → option net.IP;
  (** [strings.Map(unicode.ToLower, s)], which is what [strings.ToLower]
      returns for a string that is not ASCII: the string rune by rune,
      each rune mapped by the case tables of package [unicode]. *)
  strings_MapToLower : string → string;
  (** The tables map a rune to a rune in lower case, which they keep: the
      result is its own lower case. *)
  strings_MapToLower_lower : ∀ s,
    utf8.is_ascii s = false →
    (if utf8.is_ascii (strings_MapToLower s)
     then unicode.lower_ascii (strings_MapToLower s)
     else strings_MapToLower (strings_MapToLower s)) = strings_MapToLower s;
}.


(** ** The Go standard library: [strings], [strconv], [fmt] verbs *)

Module strings.

Section ToLower.
Context `{!Externals}.

(** [strings.ToLower]: an ASCII string is lower-cased byte by byte, any
    other string rune by rune. *)
Definition ToLower (s : string) : string :=
  if utf8.is_ascii s then unicode.lower_ascii s else strings_MapToLower s.

End ToLower.

Fixpoint HasSuffix (s suffix : string) : bool :=
  if String.eqb s suffix then true
  else match s with
       | EmptyString => false
       | String _ s' => HasSuffix s' suffix
       end.

(** [strings.TrimSuffix]: [s] without the trailing [suffix], if it has
    it; [s] otherwise. *)
Definition TrimSuffix (s suffix : string) : string :=
  if HasSuffix s suffix
  then String.substring 0 (String.length s - String.length suffix) s
  else s.

(** [strings.Join]. *)
Fixpoint Join (elems : list string) (sep : string) : string :=
  match elems with
  | [] => ""
  | [e] => e
  | e :: rest => e +:+ sep +:+ Join rest sep
  end.

End strings.

Module strconv.
(** [strconv.FormatUint(n, 10)], also the [%d] and [%v] verbs of [fmt] on
    an unsigned integer. *)
Definition FormatUint (n : Z) : string :=
  NilEmpty.string_of_uint (N.to_uint (Z.to_N n)).

(** Decimal digits to a number ([strconv.ParseUint(s, 10, _)]). *)
Definition ParseUint (s : string) : option Z :=
  match s with
  | EmptyString => None
  | _ => (fun d => Z.of_N (N.of_uint d)) <$> NilEmpty.uint_of_string s
  end.
End strconv.

(** ** The record model *)

Definition DefaultTTL : Z := 300.

(** What an [interface{}] holds when it is not [nil], as far as
    [encoding/gob], the one reader of the field [Original] in this
    package, tells values apart.
    - [basic t c]: a value, not behind a pointer, of one of the types gob
      registers itself (bool, the integer and floating-point types,
      string, [[]byte], and the slices of these): the name [t] of its type
      and its content [c], written out.
    - [foreign t]: a value of a type gob has no registration of its own
      for (a struct, a pointer to a struct such as the providers leave in
      the field, a map), of the type named [t]; gob sends such a value
      only under a name the program has registered its type with, and
      this package registers none.
    A pointer to a value of a basic type is in neither class: gob sends
    what it points to, and the receiver holds that value and no pointer.
    The model leaves it out. *)
Inductive dynamic :=
| basic (type_name content : string)
| foreign (type_name : string).

(** [RecordConfig]. The struct holds a reference to a map in [Metadata];
    the record is parametric in what stands for it: [M] is the map's
    content where only the values matter (the codec, the rendering,
    grouping), a reference into the store where sharing matters ([Copy],
    below).  [Original] is an [interface{}]: [None] is the [nil]
    interface value. *)
Record RecordConfig_ (M : Type) := {
  Type_ : string;
  Name : string;
  Target : string;
  TTL : Z;                        (* uint32 *)
  Metadata : M;
  NameFQDN : string;
  Priority : Z;                   (* uint16 *)
  Original : option dynamic;
}.
Arguments Build_RecordConfig_ {M} _ _ _ _ _ _ _ _.
Arguments Type_ {M} _.
Arguments Name {M} _.
Arguments Target {M} _.
Arguments TTL {M} _.
Arguments Metadata {M} _.
Arguments NameFQDN {M} _.
Arguments Priority {M} _.
Arguments Original {M} _.

(** A record by value: the metadata is the map's content (a [nil] map has
    no entries). *)
Abbreviation RecordConfig := (RecordConfig_ (gmap string string)).

Section Codec.
Context `{!Externals}.

(** *** [RecordConfig.RR]: a record to its wire form *)

Definition RR_line (r : RecordConfig) : string :=
  let ttl := if decide (TTL r = 0) then strconv.FormatUint DefaultTTL
             else strconv.FormatUint (TTL r) in
  NameFQDN r +:+ " " +:+ ttl +:+ " IN " +:+ Type_ r +:+ " " +:+ Target r.

Definition RR (r : RecordConfig) : outcome (option dns.RR) :=
  match dns_StringToType !! Type_ r with
  | None => Fatal (NoSuchDNSType (Type_ r))
  | Some rdtype =>
      let hdr := {| dns.Name := NameFQDN r +:+ ".";
                    dns.Rrtype := rdtype;
                    dns.Class := dns.ClassINET;
                    dns.Ttl := TTL r |} in
      if decide (rdtype = dns.TypeMX) then
        Returns (Some (dns.MX hdr (Priority r) (Target r)))
      else if decide (rdtype = dns.TypeTXT) then
        Returns (Some (dns.TXT hdr [Target r]))
      else
        let s := RR_line r in
        match dns_NewRR s with
        | (rc, Some err) => Fatal (NewRRRejected s (Target r) err)
        | (rc, None) => Returns rc
        end
  end.

(** *** [RRToRecord]: a wire record and the zone origin to a record *)

(** The record after the four header assignments, before the type
    switch; the third of them calls [dnsutil.TrimDomainName]. *)
Definition RRToRecord_header (rr : dns.RR) (origin : string) : run RecordConfig :=
  let header := dns.Header rr in
  match dnsutil_TrimDomainName (dns.Name header) origin with
  | Panics => Panics
  | Done trimmed =>
      Done {| Type_ := default "" (dns_TypeToString !! dns.Rrtype header);
              NameFQDN := strings.ToLower (strings.TrimSuffix (dns.Name header) ".");
              Name := strings.ToLower trimmed;
              TTL := dns.Ttl header;
              Target := ""; Metadata := ∅; Priority := 0; Original := None |}
  end.

Definition with_Target (rc : RecordConfig) (t : string) : RecordConfig :=
  {| Type_ := Type_ rc; Name := Name rc; Target := t; TTL := TTL rc;
     Metadata := Metadata rc; NameFQDN := NameFQDN rc;
     Priority := Priority rc; Original := Original rc |}.

Definition with_Priority (rc : RecordConfig) (p : Z) : RecordConfig :=
  {| Type_ := Type_ rc; Name := Name rc; Target := Target rc; TTL := TTL rc;
     Metadata := Metadata rc; NameFQDN := NameFQDN rc;
     Priority := p; Original := Original rc |}.

(** The type switch, on the record [rc] the header assignments left. *)
Definition RRToRecord_switch (rr : dns.RR) (rc : RecordConfig)
  : option RecordConfig * option error :=
  match rr with
  | dns.A _ a => (Some (with_Target rc (net_IPString a)), None)
  | dns.AAAA _ a => (Some (with_Target rc (net_IPString a)), None)
  | dns.CNAME _ t => (Some (with_Target rc t), None)
  | dns.MX _ pref mx => (Some (with_Priority (with_Target rc mx) pref), None)
  | dns.NS _ ns => (Some (with_Target rc ns), None)
  | dns.SOA _ ns mbox serial refresh retry expire minttl =>
      (Some (with_Target rc
         (strings.Join [ns; mbox; strconv.FormatUint serial;
                        strconv.FormatUint refresh; strconv.FormatUint retry;
                        strconv.FormatUint expire; strconv.FormatUint minttl]
                       " ")), None)
  | dns.TXT _ txt => (Some (with_Target rc (strings.Join txt " ")), None)
  | dns.Other _ _ =>
      (None, Some ("unimplemented zone record type=" +:+ Type_ rc +:+
                   " (" +:+ dns_RRString rr +:+ ")"))
  end.

Definition RRToRecord (rr : dns.RR) (origin : string)
  : run (option RecordConfig * option error) :=
  match RRToRecord_header rr origin with
  | Panics => Panics
  | Done rc => Done (RRToRecord_switch rr rc)
  end.

End Codec.


(** ** [RecordConfig.String]: the human-readable rendering *)

(** The receiver is a pointer: [None] is the [nil] receiver.  Go's [range]
    over a map visits the entries in an order the language leaves open;
    [range] is the sequence of entries as the loop meets them. *)
Definition String_from (r : option RecordConfig) (range : list (string * string))
  : string :=
  match r with
  | None => "?"
  | Some r =>
      let content := Type_ r +:+ " " +:+ NameFQDN r +:+ " " +:+ Target r +:+
                     " " +:+ strconv.FormatUint (TTL r) in
      let content := if decide (Type_ r = "MX")
                     then content +:+ " priority=" +:+ strconv.FormatUint (Priority r)
                     else content in
      foldl (λ content kv, content +:+ " " +:+ kv.1 +:+ "=" +:+ kv.2) content range
  end.

(** The orders in which [range r.Metadata] may run: the permutations of the
    map's entries. *)
Definition range_of (r : option RecordConfig) (range : list (string * string)) : Prop :=
  range ≡ₚ map_to_list (from_option Metadata ∅ r).

(** [r.String()] may return [s]. *)
Definition String_returns (r : option RecordConfig) (s : string) : Prop :=
  ∃ range, range_of r range ∧ s = String_from r range.

(** ** Grouping *)

Record RecordKey := {
  key_Type : string;
  key_Name : string;
}.

Global Instance RecordKey_eq_dec : EqDecision RecordKey.
Proof. solve_decision. Defined.

Global Instance RecordKey_countable : Countable RecordKey.
Proof.
  refine (inj_countable' (λ k, (key_Type k, key_Name k))
                         (λ p, {| key_Type := p.1; key_Name := p.2 |}) _).
  by intros [].
Defined.

(** [type Records []*RecordConfig]; the pointers are never [nil]. *)
Abbreviation Records := (list RecordConfig).

Definition key_of (r : RecordConfig) : RecordKey :=
  {| key_Type := Type_ r; key_Name := Name r |}.

(** One step of the loop of [Grouped]: [m[key] = append(m[key], r)]. *)
Definition Grouped_step (m : gmap RecordKey Records) (r : RecordConfig)
  : gmap RecordKey Records :=
  let key := key_of r in
  <[key := default [] (m !! key) ++ [r]]> m.

Definition Grouped (r : Records) : gmap RecordKey Records :=
  foldl Grouped_step ∅ r.

(** ** Address coercion *)

(** The dynamic values an [interface{}] may hold, as far as [InterfaceToIP]
    tells them apart: what [encoding/json] decodes into one ([nil], [bool],
    [float64], [string]), a [uint32], and any other type by its name. *)
Inductive any :=
| any_nil
| any_bool (b : bool)
| any_float64 (v : spec_float)
| any_string (s : string)
| any_uint32 (u : Z)
| any_other (type_name : string).

(** What [%s] prints for [reflect.TypeOf(i)]. *)
Definition TypeOf (i : any) : string :=
  match i with
  | any_nil => "%!s(<nil>)"
  | any_bool _ => "bool"
  | any_float64 _ => "float64"
  | any_string _ => "string"
  | any_uint32 _ => "uint32"
  | any_other n => n
  end.

(** The integer part of a [float64] (the fraction is discarded), when it is
    finite. *)
Definition float64_trunc (v : spec_float) : option Z :=
  match v with
  | S754_zero _ => Some 0
  | S754_finite s m e =>
      let a := if decide (0 ≤ e) then Z.shiftl (Z.pos m) e
               else Z.shiftr (Z.pos m) (- e) in
      Some (if s then - a else a)
  | S754_infinity _ | S754_nan => None
  end.

(** The conversion [uint32(v)] of a [float64]: the integer part when a
    [uint32] can hold it. Otherwise the language leaves the result to the
    implementation: [unrepresentable] is that choice. *)
Definition uint32_of_float64 (unrepresentable : spec_float → Z) (v : spec_float) : Z :=
  match float64_trunc v with
  | Some n => if decide (0 ≤ n < 2 ^ 32) then n else unrepresentable v
  | None => unrepresentable v
  end.

(** Modelled from the spec: [transform.UintToIP], of the repository's package
    [transform], which is not among the sources. The spec's words: a 32-bit
    unsigned integer is "interpreted as a packed IPv4 address, network byte
    order", and 3232235521 is 192.168.0.1. *)
Definition UintToIP (u : Z) : net.IP :=
  net.IPv4 (Z.land (Z.shiftr u 24) 255) (Z.land (Z.shiftr u 16) 255)
           (Z.land (Z.shiftr u 8) 255) (Z.land u 255).

Section Coercion.
Context `{!Externals}.
Variable unrepresentable : spec_float → Z.

Definition InterfaceToIP (i : any) : option net.IP * option error :=
  match i with
  | any_float64 v =>
      let u := uint32_of_float64 unrepresentable v in
      (Some (UintToIP u), None)
  | any_string v =>
      match net_ParseIP v with
      | Some ip => (Some ip, None)
      | None => (None, Some (v +:+ " is not a valid ip address"))
      end
  | _ => (None, Some ("Cannot convert type " +:+ TypeOf i +:+ " to ip."))
  end.

End Coercion.

(** ** The store

    [Copy] is about sharing: whether two values reach the same map or the
    same backing array.  The values of the package that refer to storage
    are modelled in a store of cells: a map value is the address of its
    table, a slice the address of its backing array (which holds exactly
    the slice's elements), a pointer the address of a struct; [None] is
    [nil] in all three cases. *)

Definition addr := positive.
Abbreviation ref := (option addr).

Module ns.
Record Nameserver := {
  Name : string;
  Target : string;
}.
End ns.

Module dc.
(** [DomainConfig], parametric in what stands for its two maps and its two
    slices, as [RecordConfig_] is. *)
Record DomainConfig_ (P M R N : Type) := {
  Name : string;
  Registrar : string;
  DNSProviders : P;   (* map[string]int *)
  Metadata : M;       (* map[string]string *)
  Records : R;        (* []*RecordConfig *)
  Nameservers : N;    (* []*Nameserver *)
  KeepUnknown : bool;
}.
Arguments Build_DomainConfig_ {P M R N} _ _ _ _ _ _ _.
Arguments Name {P M R N} _.
Arguments Registrar {P M R N} _.
Arguments DNSProviders {P M R N} _.
Arguments Metadata {P M R N} _.
Arguments Records {P M R N} _.
Arguments Nameservers {P M R N} _.
Arguments KeepUnknown {P M R N} _.
End dc.

(** A domain by value. *)
Abbreviation DomainConfig :=
  (dc.DomainConfig_ (gmap string Z) (gmap string string)
                    (list RecordConfig) (list ns.Nameserver)).

Inductive cell :=
| MapStringString (m : gmap string string)
| MapStringInt (m : gmap string Z)
| RecordPtrs (elems : list ref)       (* the array behind a []*RecordConfig *)
| NameserverPtrs (elems : list ref)   (* the array behind a []*Nameserver *)
| ARecordConfig (r : RecordConfig_ ref)
| ANameserver (n : ns.Nameserver)
| ADomainConfig (d : dc.DomainConfig_ ref ref ref ref).

Abbreviation heap := (gmap addr cell).

(** [new(T)], [make]: a cell at an address not in use. *)
Definition alloc (h : heap) (c : cell) : heap * addr :=
  let a := fresh (dom h) in (<[a := c]> h, a).

Definition set_Metadata {M N : Type} (r : RecordConfig_ M) (m : N) : RecordConfig_ N :=
  {| Type_ := Type_ r; Name := Name r; Target := Target r; TTL := TTL r;
     Metadata := m; NameFQDN := NameFQDN r; Priority := Priority r;
     Original := Original r |}.

(** *** The value behind a reference

    What a program sees when it follows the references: the entries of a
    map, the elements of a slice, the fields of a struct.  A [nil] map or
    slice has none, as for [len] and [range].  The result is [None] where
    a reference does not lead to a cell of its type, which no Go program
    can bring about, and at a [nil] struct pointer. *)

Definition read_strings (h : heap) (r : ref) : option (gmap string string) :=
  match r with
  | None => Some ∅
  | Some a => match h !! a with
              | Some (MapStringString m) => Some m
              | _ => None
              end
  end.

Definition read_ints (h : heap) (r : ref) : option (gmap string Z) :=
  match r with
  | None => Some ∅
  | Some a => match h !! a with
              | Some (MapStringInt m) => Some m
              | _ => None
              end
  end.

Definition read_record (h : heap) (p : ref) : option RecordConfig :=
  a ← p;
  match h !! a with
  | Some (ARecordConfig r) => set_Metadata r <$> read_strings h (Metadata r)
  | _ => None
  end.

Definition read_nameserver (h : heap) (p : ref) : option ns.Nameserver :=
  a ← p;
  match h !! a with
  | Some (ANameserver n) => Some n
  | _ => None
  end.

Definition read_records (h : heap) (r : ref) : option (list RecordConfig) :=
  match r with
  | None => Some []
  | Some a => match h !! a with
              | Some (RecordPtrs ps) => mapM (read_record h) ps
              | _ => None
              end
  end.

Definition read_nameservers (h : heap) (r : ref) : option (list ns.Nameserver) :=
  match r with
  | None => Some []
  | Some a => match h !! a with
              | Some (NameserverPtrs ps) => mapM (read_nameserver h) ps
              | _ => None
              end
  end.

Definition read_domain (h : heap) (p : ref) : option DomainConfig :=
  a ← p;
  match h !! a with
  | Some (ADomainConfig d) =>
      providers ← read_ints h (dc.DNSProviders d);
      meta ← read_strings h (dc.Metadata d);
      records ← read_records h (dc.Records d);
      nameservers ← read_nameservers h (dc.Nameservers d);
      Some {| dc.Name := dc.Name d; dc.Registrar := dc.Registrar d;
              dc.DNSProviders := providers; dc.Metadata := meta;
              dc.Records := records; dc.Nameservers := nameservers;
              dc.KeepUnknown := dc.KeepUnknown d |}
  | _ => None
  end.

(** *** What [reflect.DeepEqual] compares

    Two pointers are deeply equal when the structs behind them are, field
    by field; two maps, or two slices, when both are [nil] or neither is
    and they have the same entries, or the same length and deeply equal
    elements: a [nil] map and an empty map are not deeply equal, nor are a
    [nil] slice and an empty one.  The deep value behind a reference is
    what [read] gives, with [None] for a [nil] map or slice: two
    references are deeply equal when they have the same deep value. *)

Abbreviation RecordConfigDeep := (RecordConfig_ (option (gmap string string))).

Abbreviation DomainConfigDeep :=
  (dc.DomainConfig_ (option (gmap string Z)) (option (gmap string string))
                    (option (list RecordConfigDeep)) (option (list ns.Nameserver))).

Definition deep_strings (h : heap) (r : ref) : option (option (gmap string string)) :=
  match r with
  | None => Some None
  | Some a => match h !! a with
              | Some (MapStringString m) => Some (Some m)
              | _ => None
              end
  end.

Definition deep_ints (h : heap) (r : ref) : option (option (gmap string Z)) :=
  match r with
  | None => Some None
  | Some a => match h !! a with
              | Some (MapStringInt m) => Some (Some m)
              | _ => None
              end
  end.

Definition deep_record (h : heap) (p : ref) : option RecordConfigDeep :=
  a ← p;
  match h !! a with
  | Some (ARecordConfig r) => set_Metadata r <$> deep_strings h (Metadata r)
  | _ => None
  end.

Definition deep_records (h : heap) (r : ref) : option (option (list RecordConfigDeep)) :=
  match r with
  | None => Some None
  | Some a => match h !! a with
              | Some (RecordPtrs ps) => Some <$> mapM (deep_record h) ps
              | _ => None
              end
  end.

Definition deep_nameservers (h : heap) (r : ref) : option (option (list ns.Nameserver)) :=
  match r with
  | None => Some None
  | Some a => match h !! a with
              | Some (NameserverPtrs ps) => Some <$> mapM (read_nameserver h) ps
              | _ => None
              end
  end.

Definition deep_domain (h : heap) (p : ref) : option DomainConfigDeep :=
  a ← p;
  match h !! a with
  | Some (ADomainConfig d) =>
      providers ← deep_ints h (dc.DNSProviders d);
      meta ← deep_strings h (dc.Metadata d);
      records ← deep_records h (dc.Records d);
      nameservers ← deep_nameservers h (dc.Nameservers d);
      Some {| dc.Name := dc.Name d; dc.Registrar := dc.Registrar d;
              dc.DNSProviders := providers; dc.Metadata := meta;
              dc.Records := records; dc.Nameservers := nameservers;
              dc.KeepUnknown := dc.KeepUnknown d |}
  | _ => None
  end.

(** *** The storage behind a reference: the addresses a program can reach
    from it. *)

Definition at_ref (r : ref) : gset addr :=
  match r with
  | None => ∅
  | Some a => {[a]}
  end.

Definition footprint_record (h : heap) (p : ref) : gset addr :=
  at_ref p ∪
  match p ≫= (h !!.) with
  | Some (ARecordConfig r) => at_ref (Metadata r)
  | _ => ∅
  end.

Definition footprint_records (h : heap) (r : ref) : gset addr :=
  at_ref r ∪
  match r ≫= (h !!.) with
  | Some (RecordPtrs ps) => ⋃ (footprint_record h <$> ps)
  | _ => ∅
  end.

Definition footprint_nameservers (h : heap) (r : ref) : gset addr :=
  at_ref r ∪
  match r ≫= (h !!.) with
  | Some (NameserverPtrs ps) => ⋃ (at_ref <$> ps)
  | _ => ∅
  end.

Definition footprint_domain (h : heap) (p : ref) : gset addr :=
  at_ref p ∪
  match p ≫= (h !!.) with
  | Some (ADomainConfig d) =>
      at_ref (dc.DNSProviders d) ∪ at_ref (dc.Metadata d) ∪
      footprint_records h (dc.Records d) ∪
      footprint_nameservers h (dc.Nameservers d)
  | _ => ∅
  end.

(** ** encoding/gob

    [copyObj] writes its input to a byte buffer with a gob encoder and
    reads its output back from the buffer with a gob decoder.  The library
    is modelled by what its documentation says of the types at hand.
    - Pointers are not sent, the values they point to are.  A [nil]
      pointer has no value: as an element of a slice it is an error, as
      the argument of [Encode] it is a panic.
    - A field holding its zero value is not sent; a map that is not [nil]
      is sent even when empty; a slice of length 0 is not sent.
    - A non-nil interface value is sent under the name its dynamic type
      was registered with, and it is an error when there is none.  The
      library registers the basic types itself; the package registers no
      type.  The decoder makes a value of the type the name stands for.
    - The decoder allocates the maps, arrays and structs it receives.
    The buffer holds bytes, and no references: its content is a value
    [RecordConfigGob] or [DomainConfigGob], in which a map field is
    [Some] of the entries when the map was sent. *)

Abbreviation RecordConfigGob := (RecordConfig_ (option (gmap string string))).

Abbreviation DomainConfigGob :=
  (dc.DomainConfig_ (option (gmap string Z)) (option (gmap string string))
                    (list RecordConfigGob) (list ns.Nameserver)).

Inductive result (A : Type) :=
| Ok (a : A)
| Err (e : error).
Arguments Ok {A} a.
Arguments Err {A} e.

#[export] Instance result_bind : MBind result := λ A B f x,
  match x with
  | Ok a => f a
  | Err e => Err e
  end.

Fixpoint result_all {A B : Type} (f : A → result B) (l : list A) : result (list B) :=
  match l with
  | [] => Ok []
  | x :: l => y ← f x; ys ← result_all f l; Ok (y :: ys)
  end.

(** The error for a store in which a reference does not lead to a cell of
    its type; no store of a Go program is such. *)
Definition bad_store : error := "gob: invalid memory".
Definition nil_element : error := "gob: encodeArray: nil element".
Definition not_registered (type : string) : error :=
  "gob: type not registered for interface: " +:+ type.

Definition encode_strings (h : heap) (r : ref) : result (option (gmap string string)) :=
  match r with
  | None => Ok None
  | Some a => match h !! a with
              | Some (MapStringString m) => Ok (Some m)
              | _ => Err bad_store
              end
  end.

Definition encode_ints (h : heap) (r : ref) : result (option (gmap string Z)) :=
  match r with
  | None => Ok None
  | Some a => match h !! a with
              | Some (MapStringInt m) => Ok (Some m)
              | _ => Err bad_store
              end
  end.

(** The struct behind a pointer that is not [nil]. *)
Definition encode_record (h : heap) (a : addr) : result RecordConfigGob :=
  match h !! a with
  | Some (ARecordConfig r) =>
      match Original r with
      | Some (foreign type) => Err (not_registered type)
      | _ => m ← encode_strings h (Metadata r); Ok (set_Metadata r m)
      end
  | _ => Err bad_store
  end.

(** An element of a slice of pointers. *)
Definition encode_record_elem (h : heap) (p : ref) : result RecordConfigGob :=
  match p with
  | None => Err nil_element
  | Some a => encode_record h a
  end.

Definition encode_nameserver (h : heap) (p : ref) : result ns.Nameserver :=
  match p with
  | None => Err nil_element
  | Some a => match h !! a with
              | Some (ANameserver n) => Ok n
              | _ => Err bad_store
              end
  end.

Definition encode_records (h : heap) (r : ref) : result (list RecordConfigGob) :=
  match r with
  | None => Ok []
  | Some a => match h !! a with
              | Some (RecordPtrs ps) => result_all (encode_record_elem h) ps
              | _ => Err bad_store
              end
  end.

Definition encode_nameservers (h : heap) (r : ref) : result (list ns.Nameserver) :=
  match r with
  | None => Ok []
  | Some a => match h !! a with
              | Some (NameserverPtrs ps) => result_all (encode_nameserver h) ps
              | _ => Err bad_store
              end
  end.

Definition encode_domain (h : heap) (a : addr) : result DomainConfigGob :=
  match h !! a with
  | Some (ADomainConfig d) =>
      providers ← encode_ints h (dc.DNSProviders d);
      meta ← encode_strings h (dc.Metadata d);
      records ← encode_records h (dc.Records d);
      nameservers ← encode_nameservers h (dc.Nameservers d);
      Ok {| dc.Name := dc.Name d; dc.Registrar := dc.Registrar d;
            dc.DNSProviders := providers; dc.Metadata := meta;
            dc.Records := records; dc.Nameservers := nameservers;
            dc.KeepUnknown := dc.KeepUnknown d |}
  | _ => Err bad_store
  end.

(** The decoder, into a struct that holds zero values, as the two callers
    of [copyObj] pass it. *)

Definition decode_strings (h : heap) (w : option (gmap string string)) : heap * ref :=
  match w with
  | None => (h, None)
  | Some m => let '(h, a) := alloc h (MapStringString m) in (h, Some a)
  end.

Definition decode_ints (h : heap) (w : option (gmap string Z)) : heap * ref :=
  match w with
  | None => (h, None)
  | Some m => let '(h, a) := alloc h (MapStringInt m) in (h, Some a)
  end.

Definition decode_record (w : RecordConfigGob) (h : heap) (output : addr) : heap :=
  let '(h, m) := decode_strings h (Metadata w) in
  <[output := ARecordConfig (set_Metadata w m)]> h.

Definition RecordConfig_nil : RecordConfig_ ref :=
  {| Type_ := ""; Name := ""; Target := ""; TTL := 0; Metadata := None;
     NameFQDN := ""; Priority := 0; Original := None |}.

Definition DomainConfig_nil : dc.DomainConfig_ ref ref ref ref :=
  {| dc.Name := ""; dc.Registrar := ""; dc.DNSProviders := None;
     dc.Metadata := None; dc.Records := None; dc.Nameservers := None;
     dc.KeepUnknown := false |}.

Fixpoint decode_record_elems (h : heap) (ws : list RecordConfigGob) : heap * list ref :=
  match ws with
  | [] => (h, [])
  | w :: ws =>
      let '(h, a) := alloc h (ARecordConfig RecordConfig_nil) in
      let h := decode_record w h a in
      let '(h, ps) := decode_record_elems h ws in
      (h, Some a :: ps)
  end.

Definition decode_records (h : heap) (ws : list RecordConfigGob) : heap * ref :=
  match ws with
  | [] => (h, None)
  | _ => let '(h, ps) := decode_record_elems h ws in
         let '(h, a) := alloc h (RecordPtrs ps) in
         (h, Some a)
  end.

Fixpoint decode_nameserver_elems (h : heap) (ws : list ns.Nameserver) : heap * list ref :=
  match ws with
  | [] => (h, [])
  | w :: ws =>
      let '(h, a) := alloc h (ANameserver w) in
      let '(h, ps) := decode_nameserver_elems h ws in
      (h, Some a :: ps)
  end.

Definition decode_nameservers (h : heap) (ws : list ns.Nameserver) : heap * ref :=
  match ws with
  | [] => (h, None)
  | _ => let '(h, ps) := decode_nameserver_elems h ws in
         let '(h, a) := alloc h (NameserverPtrs ps) in
         (h, Some a)
  end.

Definition decode_domain (w : DomainConfigGob) (h : heap) (output : addr) : heap :=
  let '(h, providers) := decode_ints h (dc.DNSProviders w) in
  let '(h, meta) := decode_strings h (dc.Metadata w) in
  let '(h, records) := decode_records h (dc.Records w) in
  let '(h, nameservers) := decode_nameservers h (dc.Nameservers w) in
  <[output := ADomainConfig
      {| dc.Name := dc.Name w; dc.Registrar := dc.Registrar w;
         dc.DNSProviders := providers; dc.Metadata := meta;
         dc.Records := records; dc.Nameservers := nameservers;
         dc.KeepUnknown := dc.KeepUnknown w |}]> h.

(** The types [copyObj] is called at: what [Encode] and [Decode] do for a
    pointer to a value of the type.  The pointer is not [nil]: the
    encoder panics on a [nil] pointer, and so does [Copy] on a [nil]
    receiver. *)
Class Gob (W : Type) := {
  Encode : heap → addr → result W;
  Decode : W → heap → addr → heap;
}.

#[export] Instance Gob_RecordConfig : Gob RecordConfigGob := {|
  Encode := encode_record;
  Decode := decode_record;
|}.

#[export] Instance Gob_DomainConfig : Gob DomainConfigGob := {|
  Encode := encode_domain;
  Decode := decode_domain;
|}.

(** ** [copyObj] and [Copy] *)

(** [copyObj(input, output)]: the store afterwards, and the error. *)
Definition copyObj (W : Type) `{!Gob W} (h : heap) (input output : addr)
  : heap * option error :=
  match Encode (W := W) h input with
  | Err err => (h, Some err)
  | Ok buf => (Decode buf h output, None)
  end.

(** [func (dc *DomainConfig) Copy()]: the store afterwards, the new
    pointer, and the error. *)
Definition DomainConfig_Copy (h : heap) (dc : addr) : heap * addr * option error :=
  let '(h, newDc) := alloc h (ADomainConfig DomainConfig_nil) in
  let '(h, err) := copyObj DomainConfigGob h dc newDc in
  (h, newDc, err).

(** [func (r *RecordConfig) Copy()]. *)
Definition RecordConfig_Copy (h : heap) (r : addr) : heap * addr * option error :=
  let '(h, newR) := alloc h (ARecordConfig RecordConfig_nil) in
  let '(h, err) := copyObj RecordConfigGob h r newR in
  (h, newR, err).

(** ** Lookups *)

Record RegistrarConfig := {
  reg_Name : string;
  reg_Type : string;
  reg_Metadata : string;   (* json.RawMessage *)
}.

Record DNSProviderConfig := {
  prov_Name : string;
  prov_Type : string;
  prov_Metadata : string;  (* json.RawMessage *)
}.

Record DNSConfig := {
  Registrars : list RegistrarConfig;
  DNSProviders : list DNSProviderConfig;
  Domains : list DomainConfig;
}.

(** The loop of [FindDomain]: the first domain of that name, or [nil]. *)
Fixpoint FindDomain_loop (domains : list DomainConfig) (query : string)
  : option DomainConfig :=
  match domains with
  | [] => None
  | b :: rest => if decide (dc.Name b = query) then Some b
                 else FindDomain_loop rest query
  end.

Definition FindDomain (config : DNSConfig) (query : string) : option DomainConfig :=
  FindDomain_loop (Domains config) query.

(** The loop of [HasRecordTypeName]. *)
Fixpoint HasRecordTypeName_loop (records : list RecordConfig) (rtype name : string)
  : bool :=
  match records with
  | [] => false
  | r :: rest => if decide (Type_ r = rtype ∧ Name r = name) then true
                 else HasRecordTypeName_loop rest rtype name
  end.

Definition HasRecordTypeName (d : DomainConfig) (rtype name : string) : bool :=
  HasRecordTypeName_loop (dc.Records d) rtype name.

(** [StringsToNameservers]: one nameserver per name, the target empty. *)
Definition StringsToNameservers (nss : list string) : list ns.Nameserver :=
  foldl (λ nservers name, nservers ++ [{| ns.Name := name; ns.Target := "" |}]) [] nss.

(** ** A reference implementation of the imports

    Closed examples need the imported functions at concrete values. [Std]
    implements them for the plain cases: the type table restricted to the
    common types, names made of dot-separated labels without escapes, IPv4
    addresses in dotted decimal, and zone-file lines of the very shape
    [RR] synthesizes, [name ttl IN TYPE target]. The theorems below hold for
    every instance of [Externals]; [Std] only shows their hypotheses can be
    met; the instance itself, [StdInstance.externals], comes after the
    proof that the case mapping of [Std] is as [Externals] asks. *)

Module Std.

Definition type_table : list (Z * string) :=
  [(1, "A"); (2, "NS"); (5, "CNAME"); (6, "SOA"); (12, "PTR"); (15, "MX");
   (16, "TXT"); (28, "AAAA"); (33, "SRV"); (257, "CAA")].

Definition TypeToString : gmap Z string := list_to_map type_table.

(** The library builds [StringToType] by reversing [TypeToString]. *)
Definition StringToType : gmap string Z :=
  list_to_map ((λ p, (p.2, p.1)) <$> type_table).

(** [strings.Split] on a one-byte separator. *)
Fixpoint Split (sep : ascii) (s : string) : list string :=
  match s with
  | EmptyString => [""]
  | String c s' =>
      if decide (c = sep) then "" :: Split sep s'
      else match Split sep s' with
           | [] => [String c ""]
           | w :: ws => String c w :: ws
           end
  end.

(** [dns.Fqdn]: the name with a final dot. *)
Definition Fqdn (s : string) : string :=
  if strings.HasSuffix s "." then s else s +:+ ".".

Definition octet (s : string) : option Z :=
  n ← strconv.ParseUint s; guard (n ≤ 255);; Some n.

Definition ParseIPv4 (s : string) : option net.IP :=
  match Split "." s with
  | [a; b; c; d] =>
      a ← octet a; b ← octet b; c ← octet c; d ← octet d;
      Some (net.IPv4 a b c d)
  | _ => None
  end.

Definition dotted (a b c d : Z) : string :=
  strings.Join (strconv.FormatUint <$> [a; b; c; d]) ".".

Definition IPString (ip : net.IP) : string :=
  match ip with
  | [a; b; c; d] => dotted a b c d
  | [0; 0; 0; 0; 0; 0; 0; 0; 0; 0; 255; 255; a; b; c; d] => dotted a b c d
  | _ => "?"
  end.

(** [dnsutil.TrimDomainName]. It compares names without regard to the
    case of their letters. With the empty origin it finds no label to cut
    at and indexes out of range, for every name but the empty one. *)
Definition TrimDomainName (s origin : string) : run string :=
  if decide (s = "") then Done "@"
  else if decide (origin = ".") then Done (strings.TrimSuffix s ".")
  else if decide (origin = "") then Panics
  else
    let s' := Fqdn s in
    let o := Fqdn origin in
    if decide (unicode.lower_ascii s' = unicode.lower_ascii o) then Done "@"
    else if strings.HasSuffix (unicode.lower_ascii s') ("." +:+ unicode.lower_ascii o)
         then Done (String.substring 0 (String.length s' - String.length o - 1) s')
         else Done s.

(** The capital letters of Latin-1 in UTF-8: the byte 0xC3 and then a byte
    from 0x80 to 0x9E other than 0x97, the multiplication sign. *)
Definition latin1_upper (c d : ascii) : bool :=
  ((N_of_ascii c =? 195) && (128 <=? N_of_ascii d) && (N_of_ascii d <=? 158)
   && negb (N_of_ascii d =? 151))%N.

(** The case mapping for ASCII and Latin-1: the small letter of a Latin-1
    capital is 0x20 further on. *)
Fixpoint MapToLower (s : string) : string :=
  match s with
  | EmptyString => EmptyString
  | String c s' =>
      match s' with
      | String d rest =>
          if latin1_upper c d
          then String c (String (ascii_of_N (N_of_ascii d + 32)) (MapToLower rest))
          else String (unicode.lower_byte c) (MapToLower s')
      | EmptyString => String (unicode.lower_byte c) EmptyString
      end
  end.

Definition NewRR (s : string) : option dns.RR * option error :=
  match Split " " s with
  | [name; ttl; "IN"; type; target] =>
      match strconv.ParseUint ttl, StringToType !! type with
      | Some ttl, Some t =>
          let hdr := {| dns.Name := Fqdn name; dns.Rrtype := t;
                        dns.Class := dns.ClassINET; dns.Ttl := ttl |} in
          if decide (t = dns.TypeA) then
            match ParseIPv4 target with
            | Some ip => (Some (dns.A hdr ip), None)
            | None => (None, Some "dns: bad A A")
            end
          else if decide (t = dns.TypeCNAME) then
            (Some (dns.CNAME hdr (Fqdn target)), None)
          else if decide (t = dns.TypeNS) then
            (Some (dns.NS hdr (Fqdn target)), None)
          else (Some (dns.Other hdr target), None)
      | None, _ => (None, Some "dns: not a TTL")
      | _, None => (None, Some "dns: unknown RR type")
      end
  | _ => (None, Some "dns: garbage")
  end.

Definition RRString (rr : dns.RR) : string :=
  dns.Name (dns.Header rr) +:+ " " +:+ strconv.FormatUint (dns.Ttl (dns.Header rr)).

End Std.

Module Examples.
Import Std.

(** Records of the zone [example.com], all with TTL 0. *)
Definition www : RecordConfig :=
  {| Type_ := "A"; Name := "www"; Target := "192.168.0.1"; TTL := 0;
     Metadata := ∅; NameFQDN := "www.example.com"; Priority := 0; Original := None |}.

Definition mail : RecordConfig :=
  {| Type_ := "MX"; Name := "@"; Target := "mail.example.com."; TTL := 0;
     Metadata := ∅; NameFQDN := "example.com"; Priority := 10; Original := None |}.

Definition note : RecordConfig :=
  {| Type_ := "TXT"; Name := "@"; Target := "v=spf1 -all"; TTL := 0;
     Metadata := ∅; NameFQDN := "example.com"; Priority := 0; Original := None |}.

(** A CNAME record with an upper-case owner name, and what it decodes
    to. *)
Definition cname_rr : dns.RR :=
  dns.CNAME {| dns.Name := "WWW.Example.COM."; dns.Rrtype := 5;
               dns.Class := 1; dns.Ttl := 0 |} "example.com.".

Definition cname_rc : RecordConfig :=
  {| Type_ := "CNAME"; Name := "www"; Target := "example.com."; TTL := 0;
     Metadata := ∅; NameFQDN := "www.example.com"; Priority := 0;
     Original := None |}.

(** A store with one domain: a provider map, a slice of two pointers to
    the same record, and the record's metadata map. *)
Definition store0 : heap :=
  list_to_map
    [(1%positive,
      ADomainConfig {| dc.Name := "example.com"; dc.Registrar := "none";
                       dc.DNSProviders := Some 2%positive; dc.Metadata := None;
                       dc.Records := Some 3%positive; dc.Nameservers := None;
                       dc.KeepUnknown := true |});
     (2%positive, MapStringInt {[ "bind" := 1 ]});
     (3%positive, RecordPtrs [Some 4%positive; Some 4%positive]);
     (4%positive,
      ARecordConfig {| Type_ := "A"; Name := "www"; Target := "192.168.0.1";
                       TTL := 300; Metadata := Some 5%positive;
                       NameFQDN := "www.example.com"; Priority := 0;
                       Original := None |});
     (5%positive, MapStringString {[ "owner" := "ops" ]})].

(** The same store after a provider has left its handle in the record. *)
Definition store1 : heap :=
  <[4%positive :=
      ARecordConfig {| Type_ := "A"; Name := "www"; Target := "192.168.0.1";
                       TTL := 300; Metadata := Some 5%positive;
                       NameFQDN := "www.example.com"; Priority := 0;
                       Original := Some (foreign "route53.ResourceRecordSet") |}]> store0.

(** The store of [store0] after the record was given a handle of a type
    gob knows, a string. *)
Definition store3 : heap :=
  <[4%positive :=
      ARecordConfig {| Type_ := "A"; Name := "www"; Target := "192.168.0.1";
                       TTL := 300; Metadata := Some 5%positive;
                       NameFQDN := "www.example.com"; Priority := 0;
                       Original := Some (basic "string" "handle-123") |}]> store0.

(** A domain with an empty map and two empty slices, none of them
    [nil]. *)
Definition store2 : heap :=
  list_to_map
    [(1%positive,
      ADomainConfig {| dc.Name := "example.com"; dc.Registrar := "none";
                       dc.DNSProviders := None; dc.Metadata := Some 2%positive;
                       dc.Records := Some 3%positive;
                       dc.Nameservers := Some 4%positive;
                       dc.KeepUnknown := false |});
     (2%positive, MapStringString ∅);
     (3%positive, RecordPtrs []);
     (4%positive, NameserverPtrs [])].

(** A record of no known type, and one whose line no parser takes. *)
Definition bogus : RecordConfig :=
  {| Type_ := "BOGUS"; Name := "www"; Target := "x"; TTL := 0;
     Metadata := ∅; NameFQDN := "www.example.com"; Priority := 0;
     Original := None |}.

Definition unparsable : RecordConfig :=
  {| Type_ := "A"; Name := "www"; Target := "not an address"; TTL := 0;
     Metadata := ∅; NameFQDN := "www.example.com"; Priority := 0;
     Original := None |}.

(** A second address for [www], and [www] with a metadata entry. *)
Definition www2 : RecordConfig :=
  {| Type_ := "A"; Name := "www"; Target := "192.168.0.2"; TTL := 60;
     Metadata := ∅; NameFQDN := "www.example.com"; Priority := 0; Original := None |}.

Definition tagged : RecordConfig :=
  {| Type_ := "A"; Name := "www"; Target := "192.168.0.1"; TTL := 300;
     Metadata := {[ "owner" := "ops" ]}; NameFQDN := "www.example.com";
     Priority := 0; Original := None |}.

(** [www2] under another short name, with metadata, a priority and a
    provider handle. *)
Definition www2_decorated : RecordConfig :=
  {| Type_ := "A"; Name := "@"; Target := "192.168.0.2"; TTL := 60;
     Metadata := {[ "owner" := "ops" ]}; NameFQDN := "www.example.com";
     Priority := 7; Original := Some (foreign "route53.ResourceRecordSet") |}.

(** A record of a type [RRToRecord] has no case for. *)
Definition srv_rr : dns.RR :=
  dns.Other {| dns.Name := "example.com."; dns.Rrtype := 33; dns.Class := 1;
               dns.Ttl := 300 |} "0 0 5060 sip.example.com.".

(** An MX record and an SOA record as a name server sends them. *)
Definition mail_rr : dns.RR :=
  dns.MX {| dns.Name := "example.com."; dns.Rrtype := 15; dns.Class := 1;
            dns.Ttl := 3600 |} 10 "mail.example.com.".

Definition soa_rr : dns.RR :=
  dns.SOA {| dns.Name := "example.com."; dns.Rrtype := 6; dns.Class := 1;
             dns.Ttl := 3600 |}
          "ns1.example.com." "hostmaster.example.com."
          2016100401 7200 3600 1209600 300.

(** Two domains by value, and a configuration that holds them. *)
Definition example_com : DomainConfig :=
  {| dc.Name := "example.com"; dc.Registrar := "none";
     dc.DNSProviders := {[ "bind" := 1 ]}; dc.Metadata := ∅;
     dc.Records := [www; mail]; dc.Nameservers := [];
     dc.KeepUnknown := false |}.

Definition example_org : DomainConfig :=
  {| dc.Name := "example.org"; dc.Registrar := "none";
     dc.DNSProviders := {[ "bind" := 1 ]}; dc.Metadata := ∅;
     dc.Records := [note]; dc.Nameservers := [];
     dc.KeepUnknown := false |}.

Definition config : DNSConfig :=
  {| Registrars := []; DNSProviders := [];
     Domains := [example_com; example_org] |}.

(** The domain of [store2], as the struct holds it and by value. *)
Definition store2_domain : dc.DomainConfig_ ref ref ref ref :=
  {| dc.Name := "example.com"; dc.Registrar := "none";
     dc.DNSProviders := None; dc.Metadata := Some 2%positive;
     dc.Records := Some 3%positive; dc.Nameservers := Some 4%positive;
     dc.KeepUnknown := false |}.

Definition store2_value : DomainConfig :=
  {| dc.Name := "example.com"; dc.Registrar := "none";
     dc.DNSProviders := ∅; dc.Metadata := ∅; dc.Records := [];
     dc.Nameservers := []; dc.KeepUnknown := false |}.

End Examples.

(** ** The vocabulary of the properties *)

(** *** The codec *)

Section CodecVocabulary.
Context `{!Externals}.

(** The concrete types [RRToRecord] has a case for. *)
Definition implemented (rr : dns.RR) : bool :=
  match rr with
  | dns.Other _ _ => false
  | _ => true
  end.

(** The record [RRToRecord] holds after the four header assignments, given
    what [dnsutil.TrimDomainName] returned. *)
Definition decoded_header (rr : dns.RR) (trimmed : string) : RecordConfig :=
  {| Type_ := default "" (dns_TypeToString !! dns.Rrtype (dns.Header rr));
     NameFQDN := strings.ToLower (strings.TrimSuffix (dns.Name (dns.Header rr)) ".");
     Name := strings.ToLower trimmed;
     TTL := dns.Ttl (dns.Header rr);
     Target := ""; Metadata := ∅; Priority := 0; Original := None |}.

(** The header [RR] builds for the two special cases. *)
Definition special_header (r : RecordConfig) (rdtype : Z) : dns.RR_Header :=
  {| dns.Name := NameFQDN r +:+ "."; dns.Rrtype := rdtype;
     dns.Class := dns.ClassINET; dns.Ttl := TTL r |}.

(** A record is fit for the generic path when the parser turns its line
    into a record. *)
Definition parses (r : RecordConfig) : Prop :=
  ∃ rr, dns_NewRR (RR_line r) = (Some rr, None).

(** [rr] is what a parser that keeps to the line makes of [RR_line r]: the
    owner name made absolute, the type and the TTL of the line, the class
    IN, and a payload of the record's type whose text is the target. *)
Definition faithful (r : RecordConfig) (rdtype : Z) (rr : dns.RR) : Prop :=
  dns.Header rr = {| dns.Name := NameFQDN r +:+ "."; dns.Rrtype := rdtype;
                     dns.Class := dns.ClassINET;
                     dns.Ttl := if decide (TTL r = 0) then DefaultTTL else TTL r |} ∧
  match rr with
  | dns.A _ ip | dns.AAAA _ ip => net_IPString ip = Target r
  | dns.CNAME _ t | dns.NS _ t => t = Target r
  | _ => False
  end.

(** The header [RR] builds for a record that [RRToRecord] made from a
    record with the header [hdr]: the owner name in lower case and
    absolute, the class IN, the type code and the TTL of [hdr]. *)
Definition normal_header (hdr : dns.RR_Header) : dns.RR_Header :=
  {| dns.Name := strings.ToLower (strings.TrimSuffix (dns.Name hdr) ".") +:+ ".";
     dns.Rrtype := dns.Rrtype hdr;
     dns.Class := dns.ClassINET;
     dns.Ttl := dns.Ttl hdr |}.

End CodecVocabulary.

(** *** Rendering, grouping, numbers *)

(** The metadata part of the rendering, for the entries in the order the
    loop met them. *)
Definition render_meta (range : list (string * string)) : string :=
  foldr (λ kv acc, " " +:+ kv.1 +:+ "=" +:+ kv.2 +:+ acc) "" range.

(** The group of a key: the records with that key, in input order, or no
    entry when there is none. *)
Definition group_of (rs : Records) (k : RecordKey) : option Records :=
  match filter (λ r, key_of r = k) rs with
  | [] => None
  | l => Some l
  end.

(** All the records of a grouping, group after group. *)
Definition groups (m : gmap RecordKey Records) : list RecordConfig :=
  concat ((map_to_list m).*2).

(** Two groupings as one: the group of a key is its group in the first
    followed by its group in the second. *)
Definition merge_groups (m1 m2 : gmap RecordKey Records) : gmap RecordKey Records :=
  union_with (λ l1 l2, Some (l1 ++ l2)) m1 m2.

(** The byte [c] occurs in [s]. *)
Fixpoint contains_byte (c : ascii) (s : string) : bool :=
  match s with
  | EmptyString => false
  | String c' s' => bool_decide (c' = c) || contains_byte c s'
  end.

(** The [float64] that holds the integer [n] (one of its representations;
    [float64_trunc] reads the same integer off every other). *)
Definition float64_of_Z (n : Z) : spec_float :=
  match n with
  | Z0 => S754_zero false
  | Z.pos p => S754_finite false p 0
  | Z.neg p => S754_finite true p 0
  end.

(** *** The store *)

(** [h'] holds the cells [h] holds at the addresses of [X]. *)
Definition agree_on (X : gset addr) (h h' : heap) : Prop :=
  ∀ a, a ∈ X → h' !! a = h !! a.

(** A way to read a value off the store depends on its footprint only,
    and so does the footprint. *)
Class Framed {V : Type} (read : heap → ref → option V)
    (footprint : heap → ref → gset addr) : Prop := {
  framed_read h h' r v :
    read h r = Some v → agree_on (footprint h r) h h' → read h' r = Some v;
  framed_footprint h h' r :
    agree_on (footprint h r) h h' → footprint h' r = footprint h r;
  framed_dom h r v : read h r = Some v → footprint h r ⊆ dom h;
}.

(** The storage behind a map, and behind a pointer to a struct without
    references: the one cell. *)
Definition footprint_map (h : heap) (r : ref) : gset addr := at_ref r.

(** The entries of a map field of a buffer content: none when the map was
    not sent. *)
Definition sent {K A : Type} `{Countable K} (w : option (gmap K A)) : gmap K A :=
  default ∅ w.

(** The value a buffer content stands for. *)
Definition RecordConfig_of_gob (w : RecordConfigGob) : RecordConfig :=
  set_Metadata w (sent (Metadata w)).

Definition DomainConfig_of_gob (w : DomainConfigGob) : DomainConfig :=
  {| dc.Name := dc.Name w; dc.Registrar := dc.Registrar w;
     dc.DNSProviders := sent (dc.DNSProviders w);
     dc.Metadata := sent (dc.Metadata w);
     dc.Records := RecordConfig_of_gob <$> dc.Records w;
     dc.Nameservers := dc.Nameservers w;
     dc.KeepUnknown := dc.KeepUnknown w |}.

(** Between [h] and [h'] a value [v] was built behind [r]: the cells of
    [h] stand, [v] reads back, and none of its storage was in use. *)
Definition built {V : Type} (read : heap → ref → option V)
    (footprint : heap → ref → gset addr) (h h' : heap) (r : ref) (v : V) : Prop :=
  h ⊆ h' ∧ read h' r = Some v ∧ footprint h' r ## dom h.

(** Decoding into a struct: every cell but [output] stands, the value reads
    back behind [output], and but for [output] its storage is new. *)
Definition built_into {V : Type} (read : heap → ref → option V)
    (footprint : heap → ref → gset addr) (h h' : heap) (output : addr) (v : V) : Prop :=
  agree_on (dom h ∖ {[output]}) h h' ∧
  read h' (Some output) = Some v ∧
  footprint h' (Some output) ∖ {[output]} ## dom h.

(** The elements the decoder builds for a slice. *)
Definition built_elems {V : Type} (read : heap → ref → option V)
    (footprint : heap → ref → gset addr) (h h' : heap) (ps : list ref)
    (vs : list V) : Prop :=
  h ⊆ h' ∧ mapM (read h') ps = Some vs ∧ ⋃ (footprint h' <$> ps) ## dom h.









(** The records behind the pointers of a slice share no storage: no two
    positions of the slice reach the same struct or the same map. *)
Definition separate (h : heap) (ps : list ref) : Prop :=
  ∀ i j p q, ps !! i = Some p → ps !! j = Some q → i ≠ j →
             footprint_record h p ## footprint_record h q.

(** * Properties *)

(** ** Facts about the string functions *)

Lemma eqb_refl_true (s : string) : String.eqb s s = true.
Proof. by apply String.eqb_eq. Qed.

Lemma length_append (s t : string) :
  String.length (s +:+ t) = (String.length s + String.length t)%nat.
Proof. induction s as [|c s IH]; simpl; [done | by rewrite IH]. Qed.

Lemma HasSuffix_append (s suffix : string) :
  strings.HasSuffix (s +:+ suffix) suffix = true.
Proof.
  induction s as [|c s IH].
  - destruct suffix; simpl; by rewrite ?Ascii.eqb_refl, ?eqb_refl_true.
  - change (String c s +:+ suffix) with (String c (s +:+ suffix)).
    cbn [strings.HasSuffix]. rewrite IH. by case (String.eqb _ suffix).
Qed.

Lemma HasSuffix_inv (s suffix : string) :
  strings.HasSuffix s suffix = true → ∃ p, s = p +:+ suffix.
Proof.
  induction s as [|c s IH]; cbn [strings.HasSuffix];
    destruct (String.eqb _ suffix) eqn:E; intros Hs.
  - apply String.eqb_eq in E as <-. by exists "".
  - done.
  - apply String.eqb_eq in E as <-. by exists "".
  - destruct (IH Hs) as [p ->]. by exists (String c p).
Qed.

Lemma substring_prefix (s t : string) :
  String.substring 0 (String.length s) (s +:+ t) = s.
Proof.
  induction s as [|c s IH]; simpl; [by destruct t | by rewrite IH].
Qed.

(** [TrimSuffix] removes exactly one occurrence of the suffix. *)
Lemma TrimSuffix_append (s suffix : string) :
  strings.TrimSuffix (s +:+ suffix) suffix = s.
Proof.
  unfold strings.TrimSuffix. rewrite HasSuffix_append, length_append.
  replace (_ + _ - _)%nat with (String.length s) by lia.
  apply substring_prefix.
Qed.

Lemma TrimSuffix_without (s suffix : string) :
  strings.HasSuffix s suffix = false → strings.TrimSuffix s suffix = s.
Proof. unfold strings.TrimSuffix. by intros ->. Qed.

Lemma lower_byte_idemp (c : ascii) :
  unicode.lower_byte (unicode.lower_byte c) = unicode.lower_byte c.
Proof. by destruct c as [[] [] [] [] [] [] [] []]. Qed.

Lemma lower_ascii_idemp (s : string) :
  unicode.lower_ascii (unicode.lower_ascii s) = unicode.lower_ascii s.
Proof. induction s as [|c s IH]; simpl; [done | by rewrite lower_byte_idemp, IH]. Qed.

Lemma lower_byte_above (c : ascii) :
  (90 < N_of_ascii c)%N → unicode.lower_byte c = c.
Proof.
  intros Hc. unfold unicode.lower_byte.
  destruct (N.leb_spec (N_of_ascii c) 90); [lia|]. by rewrite andb_false_r.
Qed.

Lemma lower_byte_below (c : ascii) :
  (N_of_ascii (unicode.lower_byte c) < 128)%N ∨ unicode.lower_byte c = c.
Proof.
  unfold unicode.lower_byte.
  destruct (_ && _)%N eqn:E; [left | by right].
  apply andb_prop in E as [_ E%N.leb_le].
  rewrite N_ascii_embedding by lia. lia.
Qed.

Lemma lower_byte_ascii (c : ascii) :
  (N_of_ascii c < 128)%N → (N_of_ascii (unicode.lower_byte c) < 128)%N.
Proof. intros Hc. destruct (lower_byte_below c) as [?| ->]; done. Qed.

Lemma lower_ascii_is_ascii (s : string) :
  utf8.is_ascii s = true → utf8.is_ascii (unicode.lower_ascii s) = true.
Proof.
  induction s as [|c s IH]; simpl; [done|].
  intros [Hc Hs]%andb_prop. apply N.ltb_lt in Hc.
  rewrite (IH Hs), andb_true_r. by apply N.ltb_lt, lower_byte_ascii.
Qed.

Section ToLowerProperties.
Context `{!Externals}.

(** The lower case of a string is its own lower case. *)
Lemma ToLower_idemp (s : string) :
  strings.ToLower (strings.ToLower s) = strings.ToLower s.
Proof.
  unfold strings.ToLower. destruct (utf8.is_ascii s) eqn:Es.
  - by rewrite (lower_ascii_is_ascii _ Es), lower_ascii_idemp.
  - by apply strings_MapToLower_lower.
Qed.

End ToLowerProperties.

(** *** The case mapping of the reference implementation *)

Lemma string_pair_ind (P : string → Prop) :
  P "" → (∀ c, P (String c "")) →
  (∀ c d rest, P rest → P (String d rest) → P (String c (String d rest))) →
  ∀ s, P s.
Proof.
  intros H0 H1 H2 s.
  assert (P s ∧ ∀ c, P (String c s)) as [? _]; [|done].
  induction s as [|d rest [IH1 IH2]]; [by split|].
  split; [apply IH2|]. intros c. apply H2; [done | apply IH2].
Qed.

Lemma latin1_upper_spec (c d : ascii) :
  Std.latin1_upper c d = true ↔
  (N_of_ascii c = 195 ∧ 128 ≤ N_of_ascii d ≤ 158 ∧ N_of_ascii d ≠ 151)%N.
Proof.
  unfold Std.latin1_upper.
  rewrite !andb_true_iff, negb_true_iff, !N.eqb_eq, !N.leb_le, N.eqb_neq. lia.
Qed.

Lemma N_of_shifted (d : ascii) :
  (N_of_ascii d ≤ 158)%N →
  N_of_ascii (ascii_of_N (N_of_ascii d + 32)) = (N_of_ascii d + 32)%N.
Proof. intros. apply N_ascii_embedding. lia. Qed.

Lemma MapToLower_pair (c d : ascii) (rest : string) :
  Std.MapToLower (String c (String d rest)) =
  if Std.latin1_upper c d
  then String c (String (ascii_of_N (N_of_ascii d + 32)) (Std.MapToLower rest))
  else String (unicode.lower_byte c) (Std.MapToLower (String d rest)).
Proof. done. Qed.

Lemma MapToLower_lower_ascii (s : string) :
  unicode.lower_ascii (Std.MapToLower s) = Std.MapToLower s.
Proof.
  induction s as [|c|c d rest IH1 IH2] using string_pair_ind; [done|..].
  - simpl. by rewrite lower_byte_idemp.
  - rewrite MapToLower_pair. destruct (Std.latin1_upper c d) eqn:E.
    + apply latin1_upper_spec in E as (Hc & Hd & _).
      cbn [unicode.lower_ascii]. rewrite IH1.
      rewrite !lower_byte_above; [done|..].
      * rewrite N_of_shifted by lia. lia.
      * lia.
    + cbn [unicode.lower_ascii]. by rewrite IH2, lower_byte_idemp.
Qed.

(** The first byte of a mapped string is not the second byte of a capital
    letter unless the first byte of the string is. *)
Lemma MapToLower_head (c d : ascii) (s : string) :
  Std.latin1_upper c d = false →
  match Std.MapToLower (String d s) with
  | String e _ => Std.latin1_upper (unicode.lower_byte c) e = false
  | EmptyString => True
  end.
Proof.
  intros Hcd.
  assert (∀ e, (N_of_ascii e = 195%N ∨ unicode.lower_byte d = e) →
               Std.latin1_upper (unicode.lower_byte c) e = false) as Hno.
  { intros e He. apply not_true_is_false. intros (Hc & He1 & He2)%latin1_upper_spec.
    assert (unicode.lower_byte c = c) as Hcc.
    { destruct (lower_byte_below c) as [?|?]; [lia | done]. }
    rewrite Hcc in Hc.
    assert (e = d) as ->.
    { destruct He as [?|<-]; [lia|].
      destruct (lower_byte_below d) as [?|?]; [lia | done]. }
    assert (Std.latin1_upper c d = true) by (apply latin1_upper_spec; lia).
    congruence. }
  destruct s as [|x rest]; [apply Hno; by right|].
  rewrite MapToLower_pair. destruct (Std.latin1_upper d x) eqn:E.
  - apply Hno. left. by apply latin1_upper_spec in E as (? & _).
  - apply Hno. by right.
Qed.

Lemma MapToLower_idemp (s : string) :
  Std.MapToLower (Std.MapToLower s) = Std.MapToLower s.
Proof.
  induction s as [|c|c d rest IH1 IH2] using string_pair_ind; [done|..].
  - simpl. by rewrite lower_byte_idemp.
  - rewrite MapToLower_pair. destruct (Std.latin1_upper c d) eqn:E.
    + apply latin1_upper_spec in E as (Hc & Hd & Hd').
      set (d' := ascii_of_N (N_of_ascii d + 32)).
      assert (N_of_ascii d' = N_of_ascii d + 32)%N as Hd''
        by (by apply N_of_shifted; lia).
      assert (Std.latin1_upper c d' = false) as E1.
      { apply not_true_is_false. intros (_ & ? & _)%latin1_upper_spec. lia. }
      assert (∀ e, Std.latin1_upper d' e = false) as E2.
      { intros e. apply not_true_is_false. intros (? & _)%latin1_upper_spec. lia. }
      rewrite MapToLower_pair, E1.
      rewrite (lower_byte_above c) by lia. f_equal.
      destruct (Std.MapToLower rest) as [|e t] eqn:Er.
      * simpl. by rewrite lower_byte_above by lia.
      * rewrite MapToLower_pair, E2. rewrite lower_byte_above by lia. f_equal.
        exact IH1.
    + pose proof (MapToLower_head c d rest E) as Hhead.
      destruct (Std.MapToLower (String d rest)) as [|e t] eqn:Er.
      * simpl. by rewrite lower_byte_idemp.
      * rewrite MapToLower_pair, Hhead, lower_byte_idemp. f_equal.
        exact IH2.
Qed.

Lemma Std_MapToLower_lower (s : string) :
  utf8.is_ascii s = false →
  (if utf8.is_ascii (Std.MapToLower s)
   then unicode.lower_ascii (Std.MapToLower s)
   else Std.MapToLower (Std.MapToLower s)) = Std.MapToLower s.
Proof.
  intros _. destruct (utf8.is_ascii _).
  - apply MapToLower_lower_ascii.
  - apply MapToLower_idemp.
Qed.

Lemma Join_singleton (e sep : string) : strings.Join [e] sep = e.
Proof. done. Qed.

Lemma Join_cons (e e' : string) (rest : list string) (sep : string) :
  strings.Join (e :: e' :: rest) sep = e +:+ sep +:+ strings.Join (e' :: rest) sep.
Proof. done. Qed.

Lemma append_cons (c : ascii) (s t : string) :
  String c s +:+ t = String c (s +:+ t).
Proof. done. Qed.

Lemma append_assoc (s t u : string) : (s +:+ t) +:+ u = s +:+ (t +:+ u).
Proof. induction s as [|c s IH]; [done | by rewrite !append_cons, IH]. Qed.

Lemma append_empty_r (s : string) : s +:+ "" = s.
Proof. induction s as [|c s IH]; [done | by rewrite append_cons, IH]. Qed.

(** ** The codec *)

Section CodecProperties.
Context `{!Externals}.

Lemma RR_MX (r : RecordConfig) :
  dns_StringToType !! Type_ r = Some dns.TypeMX →
  RR r = Returns (Some (dns.MX (special_header r dns.TypeMX) (Priority r) (Target r))).
Proof. unfold RR. by intros ->. Qed.

Lemma RR_TXT (r : RecordConfig) :
  dns_StringToType !! Type_ r = Some dns.TypeTXT →
  RR r = Returns (Some (dns.TXT (special_header r dns.TypeTXT) [Target r])).
Proof. unfold RR. by intros ->. Qed.

Lemma RR_generic (r : RecordConfig) (rdtype : Z) :
  dns_StringToType !! Type_ r = Some rdtype →
  rdtype ≠ dns.TypeMX → rdtype ≠ dns.TypeTXT →
  RR r = match dns_NewRR (RR_line r) with
         | (rc, Some err) => Fatal (NewRRRejected (RR_line r) (Target r) err)
         | (rc, None) => Returns rc
         end.
Proof. unfold RR. intros -> ??. by rewrite !decide_False. Qed.

(** On the generic path the default TTL is what the synthesized line
    carries for a record whose TTL is 0. *)
Lemma RR_line_default_TTL (r : RecordConfig) :
  TTL r = 0 →
  RR_line r = NameFQDN r +:+ " 300 IN " +:+ Type_ r +:+ " " +:+ Target r.
Proof. unfold RR_line. intros ->. by rewrite decide_True. Qed.

Lemma RR_line_own_TTL (r : RecordConfig) :
  TTL r ≠ 0 →
  RR_line r = NameFQDN r +:+ " " +:+ strconv.FormatUint (TTL r) +:+ " IN " +:+
              Type_ r +:+ " " +:+ Target r.
Proof. unfold RR_line. intros ?. by rewrite decide_False. Qed.

(** C1. For a record whose type resolves to MX or TXT, [RR] returns a wire
    record whose header is the FQDN with a final dot, the resolved type
    code, the internet class, and the record's own TTL: a TTL of 0 reaches
    the wire as 0, the default TTL is not put in its place. *)
Theorem RR_special_cases_keep_TTL (r : RecordConfig) (rdtype : Z) :
  dns_StringToType !! Type_ r = Some rdtype →
  rdtype = dns.TypeMX ∨ rdtype = dns.TypeTXT →
  ∃ rr, RR r = Returns (Some rr) ∧
        dns.Header rr = {| dns.Name := NameFQDN r +:+ "."; dns.Rrtype := rdtype;
                           dns.Class := dns.ClassINET; dns.Ttl := TTL r |}.
Proof.
  intros Hty [-> | ->].
  - rewrite (RR_MX r Hty). by eexists.
  - rewrite (RR_TXT r Hty). by eexists.
Qed.

(** [RRToRecord] panics where [dnsutil.TrimDomainName] does, and nowhere
    else; where the call returns, it goes on to the type switch with the
    four header fields set. *)
Lemma RRToRecord_Panics (rr : dns.RR) (origin : string) :
  dnsutil_TrimDomainName (dns.Name (dns.Header rr)) origin = Panics →
  RRToRecord rr origin = Panics.
Proof. unfold RRToRecord, RRToRecord_header. by intros ->. Qed.

Lemma RRToRecord_Done (rr : dns.RR) (origin trimmed : string) :
  dnsutil_TrimDomainName (dns.Name (dns.Header rr)) origin = Done trimmed →
  RRToRecord rr origin = Done (RRToRecord_switch rr (decoded_header rr trimmed)).
Proof. unfold RRToRecord, RRToRecord_header. by intros ->. Qed.

Lemma RRToRecord_trimmed (rr : dns.RR) (origin : string)
    (res : option RecordConfig * option error) :
  RRToRecord rr origin = Done res →
  ∃ trimmed, dnsutil_TrimDomainName (dns.Name (dns.Header rr)) origin = Done trimmed ∧
             res = RRToRecord_switch rr (decoded_header rr trimmed).
Proof.
  unfold RRToRecord, RRToRecord_header.
  destruct (dnsutil_TrimDomainName _ _) as [trimmed|]; [|done].
  intros [= <-]. by exists trimmed.
Qed.

(** The type switch keeps the header fields. *)
Lemma RRToRecord_switch_fields (rr : dns.RR) (rc0 rc : RecordConfig)
    (e : option error) :
  RRToRecord_switch rr rc0 = (Some rc, e) →
  Type_ rc = Type_ rc0 ∧ NameFQDN rc = NameFQDN rc0 ∧ Name rc = Name rc0 ∧
  TTL rc = TTL rc0.
Proof. destruct rr; intros [= <- <-]; done. Qed.



(** C3, as the code has it. [RRToRecord] panics where
    [dnsutil.TrimDomainName] panics on the header name and the origin,
    whatever the type of the record.  Where that call returns,
    [RRToRecord] returns a record and no error for the seven implemented
    concrete types, and for any other type no record (the nil pointer, not
    a default record) together with the unimplemented-type error. *)
Theorem RRToRecord_record_or_error (rr : dns.RR) (origin : string) :
  match dnsutil_TrimDomainName (dns.Name (dns.Header rr)) origin with
  | Panics => RRToRecord rr origin = Panics
  | Done _ =>
      if implemented rr
      then ∃ rc, RRToRecord rr origin = Done (Some rc, None)
      else RRToRecord rr origin =
             Done (None, Some ("unimplemented zone record type=" +:+
                               default "" (dns_TypeToString !! dns.Rrtype (dns.Header rr)) +:+
                               " (" +:+ dns_RRString rr +:+ ")"))
  end.
Proof.
  destruct (dnsutil_TrimDomainName _ _) as [trimmed|] eqn:Htrim;
    [|by apply RRToRecord_Panics].
  rewrite (RRToRecord_Done _ _ _ Htrim). destruct rr; simpl; eauto.
Qed.

(** C8. Where [dnsutil.TrimDomainName] returns for the header name and the
    origin, decoding a TXT record succeeds and sets the target to the
    segments joined by single spaces; the segments a, b give the target
    [a b], the same as the single segment [a b] gives. *)
Theorem RRToRecord_TXT_joined (hdr : dns.RR_Header) (origin trimmed : string) :
  dnsutil_TrimDomainName (dns.Name hdr) origin = Done trimmed →
  (∀ txt, ∃ rc, RRToRecord (dns.TXT hdr txt) origin = Done (Some rc, None) ∧
                Target rc = strings.Join txt " ") ∧
  (∃ rc, RRToRecord (dns.TXT hdr ["a"; "b"]) origin = Done (Some rc, None) ∧
         Target rc = "a b") ∧
  (∃ rc, RRToRecord (dns.TXT hdr ["a b"]) origin = Done (Some rc, None) ∧
         Target rc = "a b").
Proof.
  intros Htrim.
  assert (∀ txt, RRToRecord (dns.TXT hdr txt) origin =
                 Done (Some (with_Target (decoded_header (dns.TXT hdr txt) trimmed)
                                         (strings.Join txt " ")), None)) as Htxt
    by (intros txt; by rewrite (RRToRecord_Done (dns.TXT hdr txt) _ _ Htrim)).
  repeat split; intros; eexists; (split; [apply Htxt | reflexivity]).
Qed.

(** C9. [RR] ends the process when the type string is not in the type
    table, and when the parser rejects the line synthesized on the generic
    path; when the type is in the table and, on the generic path, the
    parser yields a record for the line, [RR] returns a wire record. *)
Theorem RR_fatal_or_returns (r : RecordConfig) :
  (dns_StringToType !! Type_ r = None → RR r = Fatal (NoSuchDNSType (Type_ r))) ∧
  (∀ rdtype rc err,
     dns_StringToType !! Type_ r = Some rdtype →
     rdtype ≠ dns.TypeMX → rdtype ≠ dns.TypeTXT →
     dns_NewRR (RR_line r) = (rc, Some err) →
     RR r = Fatal (NewRRRejected (RR_line r) (Target r) err)) ∧
  (∀ rdtype,
     dns_StringToType !! Type_ r = Some rdtype →
     rdtype = dns.TypeMX ∨ rdtype = dns.TypeTXT ∨ parses r →
     ∃ rr, RR r = Returns (Some rr)).
Proof.
  split; [|split].
  - unfold RR. by intros ->.
  - intros rdtype rc err Hty ?? Hrej. by rewrite (RR_generic r rdtype), Hrej.
  - intros rdtype Hty Hwf.
    destruct (decide (rdtype = dns.TypeMX)) as [-> | ?];
      [rewrite (RR_MX r Hty); by eexists|].
    destruct (decide (rdtype = dns.TypeTXT)) as [-> | ?];
      [rewrite (RR_TXT r Hty); by eexists|].
    destruct Hwf as [? | [? | [rr Hrr]]]; [done..|].
    rewrite (RR_generic r rdtype), Hrr by done. by eexists.
Qed.

(** C2. Encoding a record of type MX or TXT and decoding the result gives
    back its type, both names, its target, and for MX its priority, given
    inverse type tables and lower-case names that agree with the origin;
    the TTL comes back as the record's own: a TTL of 0 comes back as 0,
    not as the default TTL. *)
Theorem roundtrip_MX_TXT_keeps_TTL (r : RecordConfig) (rdtype : Z) (origin : string) :
  dns_StringToType !! Type_ r = Some rdtype →
  rdtype = dns.TypeMX ∨ rdtype = dns.TypeTXT →
  dns_TypeToString !! rdtype = Some (Type_ r) →
  strings.ToLower (NameFQDN r) = NameFQDN r →
  strings.ToLower (Name r) = Name r →
  dnsutil_TrimDomainName (NameFQDN r +:+ ".") origin = Done (Name r) →
  ∃ rr rc, RR r = Returns (Some rr) ∧ RRToRecord rr origin = Done (Some rc, None) ∧
    Type_ rc = Type_ r ∧ Name rc = Name r ∧ NameFQDN rc = NameFQDN r ∧
    Target rc = Target r ∧
    (rdtype = dns.TypeMX → Priority rc = Priority r) ∧
    TTL rc = TTL r.
Proof.
  intros Hty Hsp Hinv Hfq Hnm Htrim.
  destruct Hsp as [-> | ->].
  - rewrite (RR_MX r Hty). do 2 eexists. split; [done|].
    rewrite (RRToRecord_Done (dns.MX (special_header r dns.TypeMX) _ _)
               origin (Name r) Htrim).
    split; [done|]. simpl.
    by rewrite Hinv, TrimSuffix_append, Hfq, Hnm.
  - rewrite (RR_TXT r Hty). do 2 eexists. split; [done|].
    rewrite (RRToRecord_Done (dns.TXT (special_header r dns.TypeTXT) _)
               origin (Name r) Htrim).
    split; [done|]. simpl.
    by rewrite Hinv, TrimSuffix_append, Hfq, Hnm.
Qed.

End CodecProperties.

(** ** The rendering *)

Lemma String_from_foldl (content : string) (range : list (string * string)) :
  foldl (λ content kv, content +:+ " " +:+ kv.1 +:+ "=" +:+ kv.2) content range
  = content +:+ render_meta range.
Proof.
  revert content. induction range as [|kv range IH]; intros content; simpl.
  - by rewrite append_empty_r.
  - by rewrite IH, !append_assoc.
Qed.

Lemma range_of_empty (r : option RecordConfig) (range : list (string * string)) :
  from_option Metadata ∅ r = ∅ → range_of r range ↔ range = [].
Proof.
  unfold range_of. intros ->. rewrite map_to_list_empty. split.
  - apply Permutation_nil_r.
  - by intros ->.
Qed.

(** C10. On the nil receiver [String] returns the sentinel, whatever else;
    on a record it returns type, FQDN, target and TTL separated by single
    spaces, then the priority if and only if the type is MX, then the
    metadata entries (none for a record without metadata, whose rendering
    is thus exactly that form).  Every receiver has a rendering. *)
Theorem String_nil_safe_and_form :
  (∀ s, String_returns None s ↔ s = "?") ∧
  (∀ r range,
     String_from (Some r) range =
       (Type_ r +:+ " " +:+ NameFQDN r +:+ " " +:+ Target r +:+ " " +:+
        strconv.FormatUint (TTL r)) +:+
       (if decide (Type_ r = "MX")
        then " priority=" +:+ strconv.FormatUint (Priority r) else "") +:+
       render_meta range) ∧
  (∀ r s, Metadata r = ∅ →
     String_returns (Some r) s ↔
     s = (Type_ r +:+ " " +:+ NameFQDN r +:+ " " +:+ Target r +:+ " " +:+
          strconv.FormatUint (TTL r)) +:+
         (if decide (Type_ r = "MX")
          then " priority=" +:+ strconv.FormatUint (Priority r) else "")) ∧
  (∀ r, ∃ s, String_returns r s).
Proof.
  assert (Hform : ∀ r range,
     String_from (Some r) range =
       (Type_ r +:+ " " +:+ NameFQDN r +:+ " " +:+ Target r +:+ " " +:+
        strconv.FormatUint (TTL r)) +:+
       (if decide (Type_ r = "MX")
        then " priority=" +:+ strconv.FormatUint (Priority r) else "") +:+
       render_meta range).
  { intros r range. unfold String_from. rewrite String_from_foldl.
    destruct (decide (Type_ r = "MX")); by rewrite ?append_assoc. }
  split; [|split; [exact Hform|split]].
  - intros s. unfold String_returns. split.
    + by intros (range & _ & ->).
    + intros ->. exists []. split; [|done]. by apply range_of_empty.
  - intros r s Hmeta. unfold String_returns. split.
    + intros (range & Hrange & ->). apply range_of_empty in Hrange as ->; [|done].
      rewrite Hform. simpl. by rewrite append_empty_r.
    + intros ->. exists []. split; [by apply range_of_empty|].
      rewrite Hform. simpl. by rewrite append_empty_r.
  - intros r. exists (String_from r (map_to_list (from_option Metadata ∅ r))).
    exists (map_to_list (from_option Metadata ∅ r)). split; [|done].
    unfold range_of. reflexivity.
Qed.

(** ** Grouping *)

Lemma Grouped_snoc (rs : Records) (r : RecordConfig) :
  Grouped (rs ++ [r]) = Grouped_step (Grouped rs) r.
Proof. unfold Grouped. by rewrite foldl_app. Qed.

Lemma Grouped_lookup (rs : Records) (k : RecordKey) :
  Grouped rs !! k = group_of rs k.
Proof.
  induction rs as [|r rs IH] using rev_ind; [done|].
  rewrite Grouped_snoc. unfold Grouped_step, group_of in *.
  rewrite filter_app, filter_cons, filter_nil.
  destruct (decide (key_of r = k)) as [-> | Hne].
  - rewrite lookup_insert_eq, IH.
    destruct (filter _ rs) as [|r' l]; simpl; [done|].
    destruct (l ++ [r]) eqn:E; [by destruct l|done].
  - rewrite lookup_insert_ne, IH by done. by rewrite app_nil_r.
Qed.

(** C6. [Grouped] has an entry for a key exactly when some input record has
    that key, and the entry is the list of the input records with that key:
    all of them, each as often as the input has it, in input order.  So
    every input record is found under its own key, and a record found
    under a key has that key and is an input record. *)
Theorem Grouped_stable_partition (rs : Records) :
  (∀ k l, Grouped rs !! k = Some l ↔
          l = filter (λ r, key_of r = k) rs ∧ l ≠ []) ∧
  (∀ r, r ∈ rs → ∃ l, Grouped rs !! key_of r = Some l ∧ r ∈ l) ∧
  (∀ k l r, Grouped rs !! k = Some l → r ∈ l → key_of r = k ∧ r ∈ rs) ∧
  (∀ k l, Grouped rs !! k = Some l → l `sublist_of` rs).
Proof.
  assert (Hiff : ∀ k l, Grouped rs !! k = Some l ↔
                        l = filter (λ r, key_of r = k) rs ∧ l ≠ []).
  { intros k l. rewrite Grouped_lookup. unfold group_of.
    destruct (filter _ rs) as [|r' l'].
    - split; [done | by intros [-> ?]].
    - split; [by intros [= <-] | by intros [-> _]]. }
  split; [exact Hiff|]. split; [|split].
  - intros r Hr. exists (filter (λ r', key_of r' = key_of r) rs).
    assert (r ∈ filter (λ r', key_of r' = key_of r) rs) as Hin
      by by apply list_elem_of_filter.
    split; [|done]. apply Hiff. split; [done|]. intros E. rewrite E in Hin.
    by apply not_elem_of_nil in Hin.
  - intros k l r [-> _]%Hiff Hin. by apply list_elem_of_filter in Hin.
  - intros k l [-> _]%Hiff. apply sublist_filter.
Qed.

(** ** Address coercion *)

(** [UintToIP] unpacks the four bytes, most significant first. *)
Lemma UintToIP_bytes (a b c d : Z) :
  0 ≤ a < 256 → 0 ≤ b < 256 → 0 ≤ c < 256 → 0 ≤ d < 256 →
  UintToIP (a * 2 ^ 24 + b * 2 ^ 16 + c * 2 ^ 8 + d) = net.IPv4 a b c d.
Proof.
  intros Ha Hb Hc Hd. unfold UintToIP.
  rewrite !Z.shiftr_div_pow2 by lia.
  change 255 with (Z.ones 8). rewrite !Z.land_ones by lia.
  change (2 ^ 24) with 16777216. change (2 ^ 16) with 65536.
  change (2 ^ 8) with 256.
  set (u := a * 16777216 + b * 65536 + c * 256 + d).
  assert ((u / 16777216) mod 256 = a) as -> by (subst u; Z.div_mod_to_equations; lia).
  assert ((u / 65536) mod 256 = b) as -> by (subst u; Z.div_mod_to_equations; lia).
  assert ((u / 256) mod 256 = c) as -> by (subst u; Z.div_mod_to_equations; lia).
  assert (u mod 256 = d) as -> by (subst u; Z.div_mod_to_equations; lia).
  done.
Qed.

Lemma float64_trunc_of_Z (n : Z) : float64_trunc (float64_of_Z n) = Some n.
Proof. by destruct n. Qed.

Section CoercionProperties.
Context `{!Externals}.
Variable unrepresentable : spec_float → Z.

(** C4, as the code has it. [InterfaceToIP] goes by the dynamic type of its
    argument. A [float64], the type a JSON number arrives in, is converted
    to [uint32] and unpacked most significant byte first: every number
    whose integer part fits 32 bits is accepted, 3232235521 as
    192.168.0.1. A string that [net.ParseIP] parses yields the parsed
    address; one it does not parse yields an error that quotes the string.
    A value of any other type, a boolean or a [uint32] for instance, yields
    an error that names the type. *)
Theorem InterfaceToIP_by_dynamic_type :
  (∀ v n, float64_trunc v = Some n → 0 ≤ n < 2 ^ 32 →
     InterfaceToIP unrepresentable (any_float64 v) = (Some (UintToIP n), None)) ∧
  InterfaceToIP unrepresentable (any_float64 (float64_of_Z 3232235521))
    = (Some (net.IPv4 192 168 0 1), None) ∧
  (∀ s ip, net_ParseIP s = Some ip →
     InterfaceToIP unrepresentable (any_string s) = (Some ip, None)) ∧
  (∀ s, net_ParseIP s = None →
     InterfaceToIP unrepresentable (any_string s)
       = (None, Some (s +:+ " is not a valid ip address"))) ∧
  (∀ i, match i with
        | any_float64 _ | any_string _ => True
        | _ => InterfaceToIP unrepresentable i
                 = (None, Some ("Cannot convert type " +:+ TypeOf i +:+ " to ip."))
        end) ∧
  InterfaceToIP unrepresentable (any_bool true)
    = (None, Some "Cannot convert type bool to ip.").
Proof.
  repeat split.
  - intros v n Hv Hn. unfold InterfaceToIP, uint32_of_float64.
    by rewrite Hv, decide_True.
  - intros s ip Hs. unfold InterfaceToIP. by rewrite Hs.
  - intros s Hs. unfold InterfaceToIP. by rewrite Hs.
  - by intros [].
Qed.

End CoercionProperties.

(** ** The store *)

(** [set_solver] clears hypotheses it has already used up. *)
#[local] Set Warnings "-clear-no-such-hyp".

Lemma agree_on_mono (X Y : gset addr) (h h' : heap) :
  X ⊆ Y → agree_on Y h h' → agree_on X h h'.
Proof. intros HXY H a Ha. apply H. set_solver. Qed.

Lemma agree_on_union (X Y : gset addr) (h h' : heap) :
  agree_on (X ∪ Y) h h' ↔ agree_on X h h' ∧ agree_on Y h h'.
Proof.
  unfold agree_on. split.
  - intros H. split; intros a Ha; apply H; set_solver.
  - intros [HX HY] a [Ha | Ha]%elem_of_union; auto.
Qed.

Lemma agree_on_subseteq (X : gset addr) (h h' : heap) :
  h ⊆ h' → X ⊆ dom h → agree_on X h h'.
Proof.
  intros Hsub HX a Ha.
  assert (is_Some (h !! a)) as [c Hc] by (apply elem_of_dom; set_solver).
  rewrite Hc. by eapply lookup_weaken.
Qed.

Lemma agree_on_insert (X : gset addr) (h : heap) (a : addr) (c : cell) :
  a ∉ X → agree_on X h (<[a := c]> h).
Proof. intros Ha b Hb. rewrite lookup_insert_ne; [done | set_solver]. Qed.

Lemma agree_on_trans (X : gset addr) (h1 h2 h3 : heap) :
  agree_on X h1 h2 → agree_on X h2 h3 → agree_on X h1 h3.
Proof. intros H12 H23 a Ha. by rewrite H23, H12. Qed.

Lemma alloc_fresh (h h' : heap) (c : cell) (a : addr) :
  alloc h c = (h', a) → (a ∉ dom h) ∧ h' = <[a := c]> h.
Proof. unfold alloc. intros [= <- <-]. split; [apply is_fresh | done]. Qed.

Lemma alloc_subseteq (h h' : heap) (c : cell) (a : addr) :
  alloc h c = (h', a) → h ⊆ h'.
Proof.
  intros [Ha ->]%alloc_fresh. apply insert_subseteq. by apply not_elem_of_dom.
Qed.

Ltac at_cell Hagree a :=
  rewrite (Hagree a) by set_solver.

Lemma at_ref_dom (h : heap) (a : addr) (c : cell) :
  h !! a = Some c → at_ref (Some a) ⊆ dom h.
Proof. intros Ha. simpl. apply singleton_subseteq_l, elem_of_dom. eauto. Qed.

Global Instance read_strings_framed : Framed read_strings footprint_map.
Proof.
  split; [| done |].
  - intros h h' [a|] v; simpl; [|done]. intros Hv Hagree. by at_cell Hagree a.
  - intros h [a|] v; simpl; [|done].
    destruct (h !! a) eqn:E; [|done]. intros _. by eapply at_ref_dom.
Qed.

Global Instance read_ints_framed : Framed read_ints footprint_map.
Proof.
  split; [| done |].
  - intros h h' [a|] v; simpl; [|done]. intros Hv Hagree. by at_cell Hagree a.
  - intros h [a|] v; simpl; [|done].
    destruct (h !! a) eqn:E; [|done]. intros _. by eapply at_ref_dom.
Qed.

Global Instance read_nameserver_framed : Framed read_nameserver footprint_map.
Proof.
  split; [| done |].
  - intros h h' [a|] v; simpl; [|done]. intros Hv Hagree. by at_cell Hagree a.
  - intros h [a|] v; simpl; [|done].
    destruct (h !! a) eqn:E; [|done]. intros _. by eapply at_ref_dom.
Qed.

Global Instance read_record_framed : Framed read_record footprint_record.
Proof.
  split.
  - intros h h' [a|] v; simpl; [|done]. unfold footprint_record. simpl.
    intros Hv Hagree. at_cell Hagree a.
    destruct (h !! a) as [[]|]; try done.
    destruct (read_strings h (Metadata r)) as [m|] eqn:Hm; [|done].
    rewrite (framed_read (read := read_strings) h h' _ m Hm); [done|].
    eapply agree_on_mono; [|done]. unfold footprint_map. set_solver.
  - intros h h' [a|]; [|done]. unfold footprint_record. simpl.
    intros Hagree. by at_cell Hagree a.
  - intros h [a|] v; simpl; [|done]. unfold footprint_record. simpl.
    destruct (h !! a) as [[]|] eqn:E; try done.
    destruct (read_strings h (Metadata r)) as [m|] eqn:Hm; [|done]. intros _.
    apply (framed_dom (read := read_strings)) in Hm.
    apply union_subseteq. split; [by eapply at_ref_dom | done].
Qed.

(** Reading the elements of an array. *)
Lemma union_list_framed {V : Type} (read : heap → ref → option V)
    (footprint : heap → ref → gset addr) `{!Framed read footprint}
    (h h' : heap) (ps : list ref) :
  agree_on (⋃ (footprint h <$> ps)) h h' →
  ⋃ (footprint h' <$> ps) = ⋃ (footprint h <$> ps).
Proof.
  induction ps as [|p ps IH]; [done|].
  rewrite !fmap_cons, !union_list_cons.
  intros [Hagree1 Hagree2]%agree_on_union.
  by rewrite (framed_footprint h h' p Hagree1), IH.
Qed.

Lemma mapM_framed {V : Type} (read : heap → ref → option V)
    (footprint : heap → ref → gset addr) `{!Framed read footprint}
    (h h' : heap) (ps : list ref) (vs : list V) :
  mapM (read h) ps = Some vs →
  agree_on (⋃ (footprint h <$> ps)) h h' →
  mapM (read h') ps = Some vs.
Proof.
  revert vs. induction ps as [|p ps IH]; intros vs; [done|].
  rewrite !fmap_cons, !union_list_cons. cbn [mapM].
  destruct (read h p) as [v|] eqn:Hp; [|done]. simpl.
  destruct (mapM (read h) ps) as [vs'|] eqn:Hps; [|done]. simpl.
  intros [= <-] [Hagree1 Hagree2]%agree_on_union.
  by rewrite (IH vs' eq_refl Hagree2), (framed_read h h' p v Hp Hagree1).
Qed.

Lemma mapM_framed_dom {V : Type} (read : heap → ref → option V)
    (footprint : heap → ref → gset addr) `{!Framed read footprint}
    (h : heap) (ps : list ref) (vs : list V) :
  mapM (read h) ps = Some vs → ⋃ (footprint h <$> ps) ⊆ dom h.
Proof.
  revert vs. induction ps as [|p ps IH]; intros vs; [set_solver|].
  rewrite !fmap_cons, !union_list_cons. cbn [mapM].
  destruct (read h p) as [v|] eqn:Hp; [|done]. simpl.
  destruct (mapM (read h) ps) as [vs'|] eqn:Hps; [|done]. intros _.
  apply union_subseteq. split; [by eapply framed_dom | by eapply IH].
Qed.

Global Instance read_records_framed : Framed read_records footprint_records.
Proof.
  split.
  - intros h h' [a|] v; simpl; [|done]. unfold footprint_records. simpl.
    intros Hv Hagree. at_cell Hagree a.
    destruct (h !! a) as [[]|]; try done.
    eapply (mapM_framed read_record footprint_record); [done|].
    eapply agree_on_mono; [|done]. set_solver.
  - intros h h' [a|]; [|done]. unfold footprint_records. simpl.
    intros Hagree. at_cell Hagree a.
    destruct (h !! a) as [[]|]; try done. f_equal.
    eapply (union_list_framed read_record footprint_record).
    eapply agree_on_mono; [|done]. set_solver.
  - intros h [a|] v; simpl; [|done]. unfold footprint_records. simpl.
    destruct (h !! a) as [[]|] eqn:E; try done. intros Hv.
    apply union_subseteq. split; [by eapply at_ref_dom|].
    by eapply (mapM_framed_dom read_record footprint_record).
Qed.

Global Instance read_nameservers_framed : Framed read_nameservers footprint_nameservers.
Proof.
  split.
  - intros h h' [a|] v; simpl; [|done]. unfold footprint_nameservers. simpl.
    intros Hv Hagree. at_cell Hagree a.
    destruct (h !! a) as [[]|]; try done.
    eapply (mapM_framed read_nameserver footprint_map); [done|].
    eapply agree_on_mono; [|done]. unfold footprint_map. set_solver.
  - intros h h' [a|]; [|done]. unfold footprint_nameservers. simpl.
    intros Hagree. by at_cell Hagree a.
  - intros h [a|] v; simpl; [|done]. unfold footprint_nameservers. simpl.
    destruct (h !! a) as [[]|] eqn:E; try done. intros Hv.
    apply union_subseteq. split; [by eapply at_ref_dom|].
    by eapply (mapM_framed_dom read_nameserver footprint_map).
Qed.

Global Instance read_domain_framed : Framed read_domain footprint_domain.
Proof.
  split.
  - intros h h' [a|] v; simpl; [|done]. unfold footprint_domain. simpl.
    intros Hv Hagree. at_cell Hagree a.
    destruct (h !! a) as [[]|]; try done.
    destruct (read_ints h _) as [providers|] eqn:H1; [|done].
    destruct (read_strings h _) as [meta|] eqn:H2; [|done].
    destruct (read_records h _) as [records|] eqn:H3; [|done].
    destruct (read_nameservers h _) as [nameservers|] eqn:H4; [|done].
    rewrite (framed_read (read := read_ints) h h' _ _ H1),
      (framed_read (read := read_strings) h h' _ _ H2),
      (framed_read (read := read_records) h h' _ _ H3),
      (framed_read (read := read_nameservers) h h' _ _ H4); [done|..];
      (eapply agree_on_mono; [|done]); unfold footprint_map; set_solver.
  - intros h h' [a|]; [|done]. unfold footprint_domain. simpl.
    intros Hagree. at_cell Hagree a.
    destruct (h !! a) as [[]|]; try done.
    rewrite (framed_footprint (read := read_records)
               (footprint := footprint_records) h h' (dc.Records d)),
      (framed_footprint (read := read_nameservers)
         (footprint := footprint_nameservers) h h' (dc.Nameservers d));
      [done|..];
      (eapply agree_on_mono; [|done]); set_solver.
  - intros h [a|] v; simpl; [|done]. unfold footprint_domain. simpl.
    destruct (h !! a) as [[]|] eqn:E; try done.
    destruct (read_ints h _) as [providers|] eqn:H1; [|done].
    destruct (read_strings h _) as [meta|] eqn:H2; [|done].
    destruct (read_records h _) as [records|] eqn:H3; [|done].
    destruct (read_nameservers h _) as [nameservers|] eqn:H4; [|done].
    intros _.
    apply (framed_dom (read := read_ints)) in H1.
    apply (framed_dom (read := read_strings)) in H2.
    apply (framed_dom (read := read_records)) in H3.
    apply (framed_dom (read := read_nameservers)) in H4.
    apply union_subseteq. split; [by eapply at_ref_dom|].
    repeat (apply union_subseteq; split); done.
Qed.

(** Reading is monotone in the store. *)
Lemma framed_weaken {V : Type} (read : heap → ref → option V)
    (footprint : heap → ref → gset addr) `{!Framed read footprint}
    (h h' : heap) (r : ref) (v : V) :
  read h r = Some v → h ⊆ h' →
  read h' r = Some v ∧ footprint h' r = footprint h r.
Proof.
  intros Hv Hsub.
  assert (agree_on (footprint h r) h h')
    by (apply agree_on_subseteq; [done | by eapply framed_dom]).
  split; [by eapply framed_read | by eapply (framed_footprint (read := read))].
Qed.

(** ** What the encoder sends is what the store holds *)

Lemma encode_strings_read (h : heap) (r : ref) (w : option (gmap string string)) :
  encode_strings h r = Ok w → read_strings h r = Some (sent w).
Proof.
  destruct r as [a|]; simpl; [|by intros [= <-]].
  destruct (h !! a) as [[]|]; try done. by intros [= <-].
Qed.

Lemma encode_ints_read (h : heap) (r : ref) (w : option (gmap string Z)) :
  encode_ints h r = Ok w → read_ints h r = Some (sent w).
Proof.
  destruct r as [a|]; simpl; [|by intros [= <-]].
  destruct (h !! a) as [[]|]; try done. by intros [= <-].
Qed.

Lemma encode_record_read (h : heap) (a : addr) (w : RecordConfigGob) :
  encode_record h a = Ok w → read_record h (Some a) = Some (RecordConfig_of_gob w).
Proof.
  unfold encode_record. simpl.
  destruct (h !! a) as [[]|]; try done.
  destruct (Original r) as [[]|] eqn:Ho; try done;
    (destruct (encode_strings h (Metadata r)) as [m|] eqn:Hm; [|done]);
    simpl; intros [= <-]; by rewrite (encode_strings_read _ _ _ Hm).
Qed.

Lemma encode_nameserver_read (h : heap) (p : ref) (w : ns.Nameserver) :
  encode_nameserver h p = Ok w → read_nameserver h p = Some w.
Proof.
  destruct p as [a|]; simpl; [|done].
  destruct (h !! a) as [[]|]; try done. by intros [= <-].
Qed.

Lemma result_all_mapM {A B C : Type} (f : A → result B) (g : A → option C)
    (c : B → C) (l : list A) (ws : list B) :
  (∀ x w, f x = Ok w → g x = Some (c w)) →
  result_all f l = Ok ws → mapM g l = Some (c <$> ws).
Proof.
  intros Hfg. revert ws. induction l as [|x l IH]; intros ws; simpl.
  - by intros [= <-].
  - destruct (f x) as [w|] eqn:Hx; [|done]. simpl.
    destruct (result_all f l) as [ws'|] eqn:Hl; [|done]. simpl.
    intros [= <-]. by rewrite (Hfg _ _ Hx), (IH ws' eq_refl).
Qed.

Lemma encode_records_read (h : heap) (r : ref) (ws : list RecordConfigGob) :
  encode_records h r = Ok ws →
  read_records h r = Some (RecordConfig_of_gob <$> ws).
Proof.
  destruct r as [a|]; simpl; [|by intros [= <-]].
  destruct (h !! a) as [[]|]; try done.
  apply result_all_mapM. intros [b|] w; [apply encode_record_read | done].
Qed.

Lemma encode_nameservers_read (h : heap) (r : ref) (ws : list ns.Nameserver) :
  encode_nameservers h r = Ok ws → read_nameservers h r = Some ws.
Proof.
  destruct r as [a|]; simpl; [|by intros [= <-]].
  destruct (h !! a) as [[]|]; try done.
  intros Hws. rewrite <- (list_fmap_id ws).
  revert Hws. apply result_all_mapM. apply encode_nameserver_read.
Qed.

Lemma encode_domain_read (h : heap) (a : addr) (w : DomainConfigGob) :
  encode_domain h a = Ok w → read_domain h (Some a) = Some (DomainConfig_of_gob w).
Proof.
  unfold encode_domain. simpl.
  destruct (h !! a) as [[]|]; try done.
  destruct (encode_ints h _) as [providers|] eqn:H1; [|done].
  destruct (encode_strings h _) as [meta|] eqn:H2; [|done].
  destruct (encode_records h _) as [records|] eqn:H3; [|done].
  destruct (encode_nameservers h _) as [nameservers|] eqn:H4; [|done].
  simpl. intros [= <-].
  by rewrite (encode_ints_read _ _ _ H1), (encode_strings_read _ _ _ H2),
    (encode_records_read _ _ _ H3), (encode_nameservers_read _ _ _ H4).
Qed.

(** ** What the decoder builds *)


Lemma dom_alloc (h h' : heap) (c : cell) (a : addr) :
  alloc h c = (h', a) → dom h' = {[a]} ∪ dom h.
Proof. intros [_ ->]%alloc_fresh. by rewrite dom_insert_L. Qed.

Lemma alloc_lookup (h h' : heap) (c : cell) (a : addr) :
  alloc h c = (h', a) → h' !! a = Some c.
Proof. intros [_ ->]%alloc_fresh. by rewrite lookup_insert_eq. Qed.

Lemma decode_strings_built (h h' : heap) (w : option (gmap string string)) (r : ref) :
  decode_strings h w = (h', r) → built read_strings footprint_map h h' r (sent w).
Proof.
  destruct w as [m|]; unfold decode_strings.
  - destruct (alloc h (MapStringString m)) as [h1 a] eqn:Ha. intros [= <- <-].
    split; [by eapply alloc_subseteq|]. unfold footprint_map. simpl.
    rewrite (alloc_lookup _ _ _ _ Ha). split; [done|].
    apply alloc_fresh in Ha as [Ha _]. by apply disjoint_singleton_l.
  - intros [= <- <-]. split; [done|]. split; [done|]. set_solver.
Qed.

Lemma decode_ints_built (h h' : heap) (w : option (gmap string Z)) (r : ref) :
  decode_ints h w = (h', r) → built read_ints footprint_map h h' r (sent w).
Proof.
  destruct w as [m|]; unfold decode_ints.
  - destruct (alloc h (MapStringInt m)) as [h1 a] eqn:Ha. intros [= <- <-].
    split; [by eapply alloc_subseteq|]. unfold footprint_map. simpl.
    rewrite (alloc_lookup _ _ _ _ Ha). split; [done|].
    apply alloc_fresh in Ha as [Ha _]. by apply disjoint_singleton_l.
  - intros [= <- <-]. split; [done|]. split; [done|]. set_solver.
Qed.

Lemma subseteq_agree_on (h h' : heap) : h ⊆ h' → agree_on (dom h) h h'.
Proof. intros. by apply agree_on_subseteq. Qed.

Lemma agree_on_dom_subseteq (h h' : heap) : agree_on (dom h) h h' → h ⊆ h'.
Proof.
  intros Hagree. apply map_subseteq_spec. intros a c Ha.
  rewrite (Hagree a); [done|]. apply elem_of_dom. eauto.
Qed.

Lemma decode_record_built (w : RecordConfigGob) (h : heap) (output : addr) :
  output ∈ dom h →
  built_into read_record footprint_record h (decode_record w h output) output
             (RecordConfig_of_gob w).
Proof.
  intros Hout. unfold decode_record.
  destruct (decode_strings h (Metadata w)) as [h1 m] eqn:Hm.
  apply decode_strings_built in Hm as (Hsub & Hread & Hfp).
  unfold footprint_map in Hfp.
  assert (agree_on (at_ref m) h1 (<[output := ARecordConfig (set_Metadata w m)]> h1))
    as Hm1 by (apply agree_on_insert; set_solver).
  split; [|split].
  - intros a Ha. rewrite lookup_insert_ne by set_solver.
    apply (subseteq_agree_on _ _ Hsub). set_solver.
  - simpl. rewrite lookup_insert_eq. simpl.
    by rewrite (framed_read (read := read_strings) _ _ _ _ Hread Hm1).
  - unfold footprint_record. simpl. rewrite lookup_insert_eq. set_solver.
Qed.

Lemma alloc_then_into {V : Type} (read : heap → ref → option V)
    (footprint : heap → ref → gset addr) `{!Framed read footprint}
    (h h1 h2 : heap) (c : cell) (a : addr) (v : V) :
  alloc h c = (h1, a) →
  built_into read footprint h1 h2 a v →
  built read footprint h h2 (Some a) v ∧ a ∉ dom h.
Proof.
  intros Ha (Hagree & Hread & Hfp).
  pose proof (dom_alloc _ _ _ _ Ha) as Hdom.
  pose proof (alloc_subseteq _ _ _ _ Ha) as Hsub.
  apply alloc_fresh in Ha as [Hfresh _].
  split; [|done]. split; [|split; [done|]].
  - apply agree_on_dom_subseteq. intros b Hb.
    rewrite (Hagree b) by set_solver.
    by apply (subseteq_agree_on _ _ Hsub).
  - rewrite Hdom in Hfp.
    assert (footprint h2 (Some a) ⊆ {[a]} ∪ footprint h2 (Some a) ∖ {[a]}) as Hsplit.
    { intros b Hb. destruct (decide (b = a)); set_solver. }
    set_solver.
Qed.

Lemma mapM_weaken {V : Type} (read : heap → ref → option V)
    (footprint : heap → ref → gset addr) `{!Framed read footprint}
    (h h' : heap) (ps : list ref) (vs : list V) :
  mapM (read h) ps = Some vs → h ⊆ h' →
  mapM (read h') ps = Some vs ∧
  ⋃ (footprint h' <$> ps) = ⋃ (footprint h <$> ps).
Proof.
  intros Hvs Hsub.
  assert (agree_on (⋃ (footprint h <$> ps)) h h')
    by (apply agree_on_subseteq; [done | by eapply mapM_framed_dom]).
  split; [by eapply mapM_framed | by eapply union_list_framed].
Qed.

Lemma built_elems_cons {V : Type} (read : heap → ref → option V)
    (footprint : heap → ref → gset addr) `{!Framed read footprint}
    (h h1 h2 : heap) (p : ref) (ps : list ref) (v : V) (vs : list V) :
  built read footprint h h1 p v →
  built_elems read footprint h1 h2 ps vs →
  built_elems read footprint h h2 (p :: ps) (v :: vs).
Proof.
  intros (H01 & Hv & Hfp) (H12 & Hvs & Hfps).
  destruct (framed_weaken read footprint h1 h2 p v Hv H12) as [Hv' Hfp'].
  split; [by etrans|]. split.
  - cbn [mapM]. by rewrite Hv', Hvs.
  - rewrite fmap_cons, union_list_cons, Hfp'. clear Hfp'.
    apply subseteq_dom in H01. set_solver.
Qed.

Lemma decode_record_elems_built (ws : list RecordConfigGob) (h h' : heap) (ps : list ref) :
  decode_record_elems h ws = (h', ps) →
  built_elems read_record footprint_record h h' ps (RecordConfig_of_gob <$> ws).
Proof.
  revert h h' ps. induction ws as [|w ws IH]; intros h h' ps.
  - intros [= <- <-]. split; [done|]. split; [done|]. set_solver.
  - cbn [decode_record_elems].
    destruct (alloc h (ARecordConfig RecordConfig_nil)) as [h1 a] eqn:Ha.
    destruct (decode_record_elems (decode_record w h1 a) ws) as [h3 ps'] eqn:Hrest.
    intros [= <- <-]. rewrite fmap_cons.
    eapply (built_elems_cons read_record footprint_record); [|by apply IH].
    eapply alloc_then_into; [apply _ | done |].
    apply decode_record_built. rewrite (dom_alloc _ _ _ _ Ha). set_solver.
Qed.

Lemma decode_nameserver_elems_built (ws : list ns.Nameserver) (h h' : heap) (ps : list ref) :
  decode_nameserver_elems h ws = (h', ps) →
  built_elems read_nameserver footprint_map h h' ps ws.
Proof.
  revert h h' ps. induction ws as [|w ws IH]; intros h h' ps.
  - intros [= <- <-]. split; [done|]. split; [done|]. set_solver.
  - cbn [decode_nameserver_elems].
    destruct (alloc h (ANameserver w)) as [h1 a] eqn:Ha.
    destruct (decode_nameserver_elems h1 ws) as [h3 ps'] eqn:Hrest.
    intros [= <- <-].
    eapply (built_elems_cons read_nameserver footprint_map); [|by apply IH].
    split; [by eapply alloc_subseteq|]. unfold footprint_map. simpl.
    rewrite (alloc_lookup _ _ _ _ Ha). split; [done|].
    apply alloc_fresh in Ha as [Ha _]. by apply disjoint_singleton_l.
Qed.


Lemma decode_nameservers_built (ws : list ns.Nameserver) (h h' : heap) (r : ref) :
  decode_nameservers h ws = (h', r) →
  built read_nameservers footprint_nameservers h h' r ws.
Proof.
  unfold decode_nameservers. destruct ws as [|w ws].
  - intros [= <- <-]. split; [done|]. split; [done|].
    unfold footprint_nameservers. simpl. set_solver.
  - destruct (decode_nameserver_elems h (w :: ws)) as [h1 ps] eqn:Hps.
    destruct (alloc h1 (NameserverPtrs ps)) as [h2 a] eqn:Ha. intros [= <- <-].
    apply decode_nameserver_elems_built in Hps as (H01 & Hvs & Hfps).
    pose proof (alloc_subseteq _ _ _ _ Ha) as H12.
    destruct (mapM_weaken read_nameserver footprint_map h1 h2 ps _ Hvs H12)
      as [Hvs' Hfps'].
    split; [by etrans|]. unfold footprint_nameservers. simpl.
    rewrite (alloc_lookup _ _ _ _ Ha). split; [done|].
    change (⋃ (at_ref <$> ps)) with (⋃ (footprint_map h2 <$> ps)).
    rewrite Hfps'. clear Hfps'. apply alloc_fresh in Ha as [Ha _].
    apply subseteq_dom in H01. set_solver.
Qed.



(** ** Deep values

    The deep value depends on the same storage as the value. *)

Global Instance deep_strings_framed : Framed deep_strings footprint_map.
Proof.
  split; [| done |].
  - intros h h' [a|] v; simpl; [|done]. intros Hv Hagree. by at_cell Hagree a.
  - intros h [a|] v; simpl; [|done].
    destruct (h !! a) eqn:E; [|done]. intros _. by eapply at_ref_dom.
Qed.

Global Instance deep_ints_framed : Framed deep_ints footprint_map.
Proof.
  split; [| done |].
  - intros h h' [a|] v; simpl; [|done]. intros Hv Hagree. by at_cell Hagree a.
  - intros h [a|] v; simpl; [|done].
    destruct (h !! a) eqn:E; [|done]. intros _. by eapply at_ref_dom.
Qed.

Global Instance deep_record_framed : Framed deep_record footprint_record.
Proof.
  split.
  - intros h h' [a|] v; simpl; [|done]. unfold footprint_record. simpl.
    intros Hv Hagree. at_cell Hagree a.
    destruct (h !! a) as [[]|]; try done.
    destruct (deep_strings h (Metadata r)) as [m|] eqn:Hm; [|done].
    rewrite (framed_read (read := deep_strings) h h' _ m Hm); [done|].
    eapply agree_on_mono; [|done]. unfold footprint_map. set_solver.
  - apply (framed_footprint (read := read_record)).
  - intros h [a|] v; simpl; [|done]. unfold footprint_record. simpl.
    destruct (h !! a) as [[]|] eqn:E; try done.
    destruct (deep_strings h (Metadata r)) as [m|] eqn:Hm; [|done]. intros _.
    apply (framed_dom (read := deep_strings)) in Hm.
    apply union_subseteq. split; [by eapply at_ref_dom | done].
Qed.

Lemma fmap_Some_Some {A : Type} (x : option A) (v : option A) :
  Some <$> x = Some v → ∃ y, x = Some y ∧ v = Some y.
Proof. destruct x as [y|]; [|done]. intros [= <-]. by exists y. Qed.

Global Instance deep_records_framed : Framed deep_records footprint_records.
Proof.
  split.
  - intros h h' [a|] v; simpl; [|done]. unfold footprint_records. simpl.
    intros Hv Hagree. at_cell Hagree a.
    destruct (h !! a) as [[]|]; try done.
    apply fmap_Some_Some in Hv as (vs & Hvs & ->).
    rewrite (mapM_framed deep_record footprint_record h h' _ _ Hvs); [done|].
    eapply agree_on_mono; [|done]. set_solver.
  - apply (framed_footprint (read := read_records)).
  - intros h [a|] v; simpl; [|done]. unfold footprint_records. simpl.
    destruct (h !! a) as [[]|] eqn:E; try done.
    intros (vs & Hvs & ->)%fmap_Some_Some.
    apply union_subseteq. split; [by eapply at_ref_dom|].
    by eapply (mapM_framed_dom deep_record footprint_record).
Qed.

Global Instance deep_nameservers_framed : Framed deep_nameservers footprint_nameservers.
Proof.
  split.
  - intros h h' [a|] v; simpl; [|done]. unfold footprint_nameservers. simpl.
    intros Hv Hagree. at_cell Hagree a.
    destruct (h !! a) as [[]|]; try done.
    apply fmap_Some_Some in Hv as (vs & Hvs & ->).
    rewrite (mapM_framed read_nameserver footprint_map h h' _ _ Hvs); [done|].
    eapply agree_on_mono; [|done]. unfold footprint_map. set_solver.
  - apply (framed_footprint (read := read_nameservers)).
  - intros h [a|] v; simpl; [|done]. unfold footprint_nameservers. simpl.
    destruct (h !! a) as [[]|] eqn:E; try done.
    intros (vs & Hvs & ->)%fmap_Some_Some.
    apply union_subseteq. split; [by eapply at_ref_dom|].
    by eapply (mapM_framed_dom read_nameserver footprint_map).
Qed.

Global Instance deep_domain_framed : Framed deep_domain footprint_domain.
Proof.
  split.
  - intros h h' [a|] v; simpl; [|done]. unfold footprint_domain. simpl.
    intros Hv Hagree. at_cell Hagree a.
    destruct (h !! a) as [[]|]; try done.
    destruct (deep_ints h _) as [providers|] eqn:H1; [|done].
    destruct (deep_strings h _) as [meta|] eqn:H2; [|done].
    destruct (deep_records h _) as [records|] eqn:H3; [|done].
    destruct (deep_nameservers h _) as [nameservers|] eqn:H4; [|done].
    rewrite (framed_read (read := deep_ints) h h' _ _ H1),
      (framed_read (read := deep_strings) h h' _ _ H2),
      (framed_read (read := deep_records) h h' _ _ H3),
      (framed_read (read := deep_nameservers) h h' _ _ H4); [done|..];
      (eapply agree_on_mono; [|done]); unfold footprint_map; set_solver.
  - apply (framed_footprint (read := read_domain)).
  - intros h [a|] v; simpl; [|done]. unfold footprint_domain. simpl.
    destruct (h !! a) as [[]|] eqn:E; try done.
    destruct (deep_ints h _) as [providers|] eqn:H1; [|done].
    destruct (deep_strings h _) as [meta|] eqn:H2; [|done].
    destruct (deep_records h _) as [records|] eqn:H3; [|done].
    destruct (deep_nameservers h _) as [nameservers|] eqn:H4; [|done].
    intros _.
    apply (framed_dom (read := deep_ints)) in H1.
    apply (framed_dom (read := deep_strings)) in H2.
    apply (framed_dom (read := deep_records)) in H3.
    apply (framed_dom (read := deep_nameservers)) in H4.
    apply union_subseteq. split; [by eapply at_ref_dom|].
    repeat (apply union_subseteq; split); done.
Qed.

(** *** What the encoder sends is the deep value, but for empty slices *)







(** *** What the decoder builds, deeply *)












(** ** [Copy] *)


(** *** The encoder takes every value without a provider handle *)








(** ** Lookups, and more of the codec *)

(** [HasRecordTypeName] holds exactly when some record of the domain has
    that type and that name, which is when [Grouped] has an entry for the
    pair. *)
Lemma HasRecordTypeName_loop_spec (records : list RecordConfig) (rtype name : string) :
  HasRecordTypeName_loop records rtype name = true ↔
  ∃ r, r ∈ records ∧ Type_ r = rtype ∧ Name r = name.
Proof.
  induction records as [|r records IH]; simpl.
  - split; [done|]. by intros (r & ?%not_elem_of_nil & _).
  - destruct (decide (Type_ r = rtype ∧ Name r = name)) as [[? ?]|Hne].
    + split; [|done]. intros _. exists r. split; [left|done].
    + rewrite IH. split.
      * intros (r' & ? & ?). exists r'. split; [by right|done].
      * intros (r' & [-> | ?]%elem_of_cons & ? & ?); [by destruct Hne|].
        by exists r'.
Qed.

Theorem HasRecordTypeName_iff (d : DomainConfig) (rtype name : string) :
  (HasRecordTypeName d rtype name = true ↔
   ∃ r, r ∈ dc.Records d ∧ Type_ r = rtype ∧ Name r = name) ∧
  (HasRecordTypeName d rtype name = true ↔
   is_Some (Grouped (dc.Records d) !! {| key_Type := rtype; key_Name := name |})).
Proof.
  split; [apply HasRecordTypeName_loop_spec|].
  unfold HasRecordTypeName. rewrite HasRecordTypeName_loop_spec, Grouped_lookup.
  unfold group_of. split.
  - intros (r & Hr & Ht & Hn).
    assert (r ∈ filter (λ r, key_of r = {| key_Type := rtype; key_Name := name |})
                        (dc.Records d)) as Hin.
    { apply list_elem_of_filter. split; [|done]. unfold key_of. by rewrite Ht, Hn. }
    destruct (filter _ _); [by apply not_elem_of_nil in Hin | by eexists].
  - destruct (filter _ _) as [|r l] eqn:E; [by intros [? ?]|]. intros _.
    assert (r ∈ filter (λ r, key_of r = {| key_Type := rtype; key_Name := name |})
                        (dc.Records d)) as Hin by (rewrite E; left).
    apply list_elem_of_filter in Hin as [[= ? ?] ?]. by exists r.
Qed.

(** [FindDomain] returns the first domain of the list whose name is the
    query, byte for byte, and [nil] when there is none. *)
Theorem FindDomain_first (config : DNSConfig) (query : string) :
  match FindDomain config query with
  | Some b =>
      ∃ before after, Domains config = before ++ b :: after ∧
                      dc.Name b = query ∧
                      Forall (λ b', dc.Name b' ≠ query) before
  | None => Forall (λ b', dc.Name b' ≠ query) (Domains config)
  end.
Proof.
  unfold FindDomain. induction (Domains config) as [|b rest IH]; simpl; [done|].
  destruct (decide (dc.Name b = query)) as [Hb|Hb].
  - by exists [], rest.
  - destruct (FindDomain_loop rest query) as [b'|].
    + destruct IH as (before & after & -> & ? & ?).
      exists (b :: before), after. by repeat split; [|constructor].
    + by constructor.
Qed.

(** [StringsToNameservers] keeps the names, in order, and leaves every
    target empty. *)
Theorem StringsToNameservers_map (nss : list string) :
  StringsToNameservers nss = (λ name, {| ns.Name := name; ns.Target := "" |}) <$> nss.
Proof.
  unfold StringsToNameservers.
  induction nss as [|name nss IH] using rev_ind; [done|].
  by rewrite foldl_app, fmap_app, IH.
Qed.

(** The keys of [Grouped] are the keys of the input records. *)
Theorem Grouped_dom (rs : list RecordConfig) :
  dom (Grouped rs) = list_to_set (key_of <$> rs).
Proof.
  apply set_eq. intros k.
  rewrite elem_of_dom, Grouped_lookup, elem_of_list_to_set, list_elem_of_fmap.
  unfold group_of. split.
  - destruct (filter _ rs) as [|r l] eqn:E; [by intros [? ?]|]. intros _.
    assert (r ∈ filter (λ r, key_of r = k) rs) as Hin by (rewrite E; left).
    apply list_elem_of_filter in Hin as [? ?]. by exists r.
  - intros (r & -> & Hr).
    assert (r ∈ filter (λ r', key_of r' = key_of r) rs) as Hin
      by by apply list_elem_of_filter.
    destruct (filter _ rs); [by apply not_elem_of_nil in Hin | by eexists].
Qed.

Section MoreCodec.
Context `{!Externals}.

(** On the generic path, when the parser keeps to the line, encoding and
    decoding gives back type, names and target, and the TTL with the
    default in the place of 0. *)
Theorem roundtrip_generic (r : RecordConfig) (rdtype : Z) (origin : string)
    (rr : dns.RR) :
  dns_StringToType !! Type_ r = Some rdtype →
  rdtype ≠ dns.TypeMX → rdtype ≠ dns.TypeTXT →
  dns_NewRR (RR_line r) = (Some rr, None) →
  faithful r rdtype rr →
  dns_TypeToString !! rdtype = Some (Type_ r) →
  strings.ToLower (NameFQDN r) = NameFQDN r →
  strings.ToLower (Name r) = Name r →
  dnsutil_TrimDomainName (NameFQDN r +:+ ".") origin = Done (Name r) →
  RR r = Returns (Some rr) ∧
  ∃ rc, RRToRecord rr origin = Done (Some rc, None) ∧
    Type_ rc = Type_ r ∧ Name rc = Name r ∧ NameFQDN rc = NameFQDN r ∧
    Target rc = Target r ∧
    TTL rc = if decide (TTL r = 0) then DefaultTTL else TTL r.
Proof.
  intros Hty Hmx Htxt Hparse [Hhdr Hpay] Hinv Hfq Hnm Htrim.
  split; [by rewrite (RR_generic r rdtype), Hparse|].
  assert (dns.Name (dns.Header rr) = NameFQDN r +:+ ".") as Hname
    by (by rewrite Hhdr).
  rewrite <- Hname in Htrim.
  rewrite (RRToRecord_Done _ _ _ Htrim).
  assert (∃ rc, RRToRecord_switch rr (decoded_header rr (Name r)) = (Some rc, None) ∧
                Target rc = Target r) as (rc & Hrc & Htarget).
  { destruct rr; try done; simpl in *; eexists; (split; [done|]); simpl; congruence. }
  exists rc. rewrite Hrc. split; [done|].
  destruct (RRToRecord_switch_fields _ _ _ _ Hrc) as (-> & -> & -> & ->).
  unfold decoded_header. rewrite Hhdr. simpl.
  by rewrite Hinv, TrimSuffix_append, Hfq, Hnm.
Qed.

End MoreCodec.

(** ** More on grouping *)

Lemma group_of_app (rs1 rs2 : Records) (k : RecordKey) :
  group_of (rs1 ++ rs2) k =
  union_with (λ l1 l2, Some (l1 ++ l2)) (group_of rs1 k) (group_of rs2 k).
Proof.
  unfold group_of. rewrite filter_app.
  destruct (filter _ rs1) as [|r1 l1]; destruct (filter _ rs2) as [|r2 l2]; simpl;
    by rewrite ?app_nil_r.
Qed.

(** Grouping a list in two parts: the grouping of [rs1 ++ rs2] is the
    grouping of [rs1] and that of [rs2] merged, the group of a key in
    [rs1] before its group in [rs2]. *)
Theorem Grouped_app (rs1 rs2 : Records) :
  Grouped (rs1 ++ rs2) = merge_groups (Grouped rs1) (Grouped rs2).
Proof.
  apply map_eq. intros k. unfold merge_groups.
  rewrite lookup_union_with, !Grouped_lookup. apply group_of_app.
Qed.

Lemma groups_insert_new (m : gmap RecordKey Records) (k : RecordKey) (l : Records) :
  m !! k = None → groups (<[k := l]> m) ≡ₚ l ++ groups m.
Proof. intros Hk. unfold groups. by rewrite (map_to_list_insert _ _ _ Hk). Qed.

Lemma groups_step (m : gmap RecordKey Records) (r : RecordConfig) :
  groups (Grouped_step m r) ≡ₚ groups m ++ [r].
Proof.
  unfold Grouped_step. destruct (m !! key_of r) as [l|] eqn:Hk; simpl.
  - rewrite <- (insert_delete_id m (key_of r) l Hk) at 2.
    rewrite <- insert_delete_eq.
    rewrite !groups_insert_new by apply lookup_delete_eq.
    rewrite <- !app_assoc. apply Permutation_app_head, Permutation_app_comm.
  - rewrite groups_insert_new by done. simpl. apply Permutation_cons_append.
Qed.

(** [Grouped] loses no record and makes none up: the groups taken together
    are the input, each record as often as the input has it. *)
Theorem Grouped_permutation (rs : Records) :
  groups (Grouped rs) ≡ₚ rs.
Proof.
  induction rs as [|r rs IH] using rev_ind.
  - unfold groups, Grouped. simpl. by rewrite map_to_list_empty.
  - by rewrite Grouped_snoc, groups_step, IH.
Qed.

(** ** More on the lookups *)

Lemma FindDomain_loop_unique (domains : list DomainConfig) (d : DomainConfig) :
  NoDup (dc.Name <$> domains) → d ∈ domains →
  FindDomain_loop domains (dc.Name d) = Some d.
Proof.
  induction domains as [|b rest IH]; simpl; [by intros _ ?%not_elem_of_nil|].
  intros [Hb Hrest]%NoDup_cons [-> | Hd]%elem_of_cons.
  - by rewrite decide_True.
  - rewrite decide_False; [by apply IH|].
    intros Heq. apply Hb. rewrite Heq. by apply list_elem_of_fmap_2.
Qed.

(** In a configuration whose domains have different names, [FindDomain]
    finds every domain under its name. *)
Theorem FindDomain_unique (config : DNSConfig) (d : DomainConfig) :
  NoDup (dc.Name <$> Domains config) → d ∈ Domains config →
  FindDomain config (dc.Name d) = Some d.
Proof. apply FindDomain_loop_unique. Qed.

(** ** More on the rendering *)

Lemma render_meta_length_perm (l1 l2 : list (string * string)) :
  l1 ≡ₚ l2 → String.length (render_meta l1) = String.length (render_meta l2).
Proof.
  induction 1 as [|kv l1 l2 _ IH|kv kv' l|l1 l2 l3 _ IH1 _ IH2]; simpl.
  - done.
  - by rewrite !length_append, IH.
  - rewrite !length_append. lia.
  - congruence.
Qed.

Lemma String_from_render (r : option RecordConfig) (range1 range2 : list (string * string)) :
  String.length (render_meta range1) = String.length (render_meta range2) →
  String.length (String_from r range1) = String.length (String_from r range2).
Proof.
  destruct r as [r|]; [|done]. unfold String_from.
  rewrite !String_from_foldl, !length_append. by intros ->.
Qed.

(** The renderings [String] may return for one record, which differ in the
    order of the metadata entries, all have the same length; a record with
    at most one metadata entry has one rendering only. *)
Theorem String_renderings (r : option RecordConfig) (s1 s2 : string) :
  String_returns r s1 → String_returns r s2 →
  String.length s1 = String.length s2 ∧
  ((size (from_option Metadata ∅ r) ≤ 1)%nat → s1 = s2).
Proof.
  intros (range1 & H1 & ->) (range2 & H2 & ->). unfold range_of in *. split.
  - apply String_from_render, render_meta_length_perm. by rewrite H1, H2.
  - intros Hsize. f_equal.
    rewrite <- length_map_to_list in Hsize.
    destruct (map_to_list _) as [|kv [|kv' l]]; simpl in Hsize; [| |lia].
    + apply Permutation_nil_r in H1, H2. congruence.
    + apply Permutation_singleton_r in H1, H2. congruence.
Qed.

(** ** More of the codec: from the wire and back *)

Lemma Split_without (sep : ascii) (s : string) :
  contains_byte sep s = false → Std.Split sep s = [s].
Proof.
  induction s as [|c s IH]; simpl; [done|].
  intros [Hc Hs]%orb_false_elim. apply bool_decide_eq_false in Hc.
  rewrite decide_False by done. by rewrite IH.
Qed.

Lemma Split_cons (sep : ascii) (s t : string) :
  contains_byte sep s = false →
  Std.Split sep (s +:+ String sep t) = s :: Std.Split sep t.
Proof.
  induction s as [|c s IH]; simpl.
  - intros _. change ("" +:+ String sep t) with (String sep t). simpl.
    by rewrite decide_True.
  - intros [Hc Hs]%orb_false_elim. apply bool_decide_eq_false in Hc.
    rewrite decide_False by done. by rewrite IH.
Qed.

Lemma string_of_uint_digits (c : ascii) (d : Decimal.uint) :
  (N_of_ascii c < 48)%N → contains_byte c (NilEmpty.string_of_uint d) = false.
Proof.
  intros Hc. induction d; simpl; [done|..]; rewrite IHd, orb_false_r;
    apply bool_decide_eq_false; intros <-; vm_compute in Hc; discriminate Hc.
Qed.

Lemma FormatUint_without_space (n : Z) :
  contains_byte " " (strconv.FormatUint n) = false.
Proof. apply string_of_uint_digits. by vm_compute. Qed.

Section WireAndBack.
Context `{!Externals}.

(** Decoding an MX or a TXT record and encoding the result, given inverse
    type tables at the header's type: the MX record comes back with its
    preference and its exchanger, the TXT record with its segments joined
    into one; the header comes back with the owner name in lower case and
    absolute, the class IN, and the TTL it had.  So an MX record whose name
    is lower-case and absolute and whose class is IN comes back as it
    was. *)
Theorem RRToRecord_RR_special (hdr : dns.RR_Header) (origin type trimmed : string) :
  dnsutil_TrimDomainName (dns.Name hdr) origin = Done trimmed →
  dns_TypeToString !! dns.Rrtype hdr = Some type →
  dns_StringToType !! type = Some (dns.Rrtype hdr) →
  (dns.Rrtype hdr = dns.TypeMX → ∀ preference mx, ∃ rc,
     RRToRecord (dns.MX hdr preference mx) origin = Done (Some rc, None) ∧
     RR rc = Returns (Some (dns.MX (normal_header hdr) preference mx))) ∧
  (dns.Rrtype hdr = dns.TypeTXT → ∀ txt, ∃ rc,
     RRToRecord (dns.TXT hdr txt) origin = Done (Some rc, None) ∧
     RR rc = Returns (Some (dns.TXT (normal_header hdr) [strings.Join txt " "]))) ∧
  (∀ name, dns.Name hdr = name +:+ "." → strings.ToLower name = name →
           dns.Class hdr = dns.ClassINET → normal_header hdr = hdr).
Proof.
  intros Htrim Hto Hfrom. split; [|split].
  - intros Hmx preference mx.
    rewrite (RRToRecord_Done (dns.MX hdr preference mx) origin trimmed Htrim).
    eexists. split; [done|].
    rewrite RR_MX by (simpl; rewrite Hto; simpl; by rewrite Hfrom, Hmx).
    unfold special_header, normal_header. simpl. by rewrite Hmx.
  - intros Htxt txt.
    rewrite (RRToRecord_Done (dns.TXT hdr txt) origin trimmed Htrim).
    eexists. split; [done|].
    rewrite RR_TXT by (simpl; rewrite Hto; simpl; by rewrite Hfrom, Htxt).
    unfold special_header, normal_header. simpl. by rewrite Htxt.
  - intros name Hname Hlow Hclass. destruct hdr as [n t c ttl]. simpl in *.
    unfold normal_header. simpl. subst n c.
    by rewrite TrimSuffix_append, Hlow.
Qed.

(** Every record [RRToRecord] returns comes without an error and is in
    normal form: both names are in lower case, there is no metadata and no
    provider handle, and the priority is 0 unless the wire record is an MX
    record, whose preference it then is. *)
Theorem RRToRecord_normal_form (rr : dns.RR) (origin : string) (rc : RecordConfig)
    (e : option error) :
  RRToRecord rr origin = Done (Some rc, e) →
  e = None ∧
  strings.ToLower (Name rc) = Name rc ∧
  strings.ToLower (NameFQDN rc) = NameFQDN rc ∧
  Metadata rc = ∅ ∧ Original rc = None ∧
  Priority rc = match rr with dns.MX _ preference _ => preference | _ => 0 end.
Proof.
  intros (trimmed & _ & Hres)%RRToRecord_trimmed. revert Hres.
  destruct rr; intros [= -> ->]; simpl; by rewrite !ToLower_idemp.
Qed.

(** The origin bears on two things only, whether [RRToRecord] returns and
    the short name: [RRToRecord] panics exactly where
    [dnsutil.TrimDomainName] does, and at two origins where it returns it
    returns the same error, or two records with the same type, FQDN,
    target, TTL and priority. *)
Theorem RRToRecord_origin (rr : dns.RR) (origin1 origin2 : string) :
  (RRToRecord rr origin1 = Panics ↔
   dnsutil_TrimDomainName (dns.Name (dns.Header rr)) origin1 = Panics) ∧
  match RRToRecord rr origin1, RRToRecord rr origin2 with
  | Done (Some rc1, e1), Done (Some rc2, e2) =>
      e1 = e2 ∧
      Type_ rc1 = Type_ rc2 ∧ NameFQDN rc1 = NameFQDN rc2 ∧
      Target rc1 = Target rc2 ∧ TTL rc1 = TTL rc2 ∧ Priority rc1 = Priority rc2
  | Done (None, e1), Done (None, e2) => e1 = e2
  | Done _, Done _ => False
  | _, _ => True
  end.
Proof.
  unfold RRToRecord, RRToRecord_header. split.
  - by destruct (dnsutil_TrimDomainName _ origin1).
  - destruct (dnsutil_TrimDomainName _ origin1); [|done].
    destruct (dnsutil_TrimDomainName _ origin2); [|by destruct (RRToRecord_switch _ _) as [[?|] ?]].
    by destruct rr.
Qed.

(** The target of a decoded SOA record splits at its spaces into the seven
    fields of the wire record, the numbers in decimal, when neither the
    primary server nor the mailbox holds a space. *)
Theorem RRToRecord_SOA_fields (hdr : dns.RR_Header) (origin trimmed : string)
    (primary mbox : string) (serial refresh retry expire minttl : Z) :
  dnsutil_TrimDomainName (dns.Name hdr) origin = Done trimmed →
  contains_byte " " primary = false → contains_byte " " mbox = false →
  ∃ rc, RRToRecord (dns.SOA hdr primary mbox serial refresh retry expire minttl) origin
          = Done (Some rc, None) ∧
        Std.Split " " (Target rc) =
          [primary; mbox; strconv.FormatUint serial; strconv.FormatUint refresh;
           strconv.FormatUint retry; strconv.FormatUint expire;
           strconv.FormatUint minttl].
Proof.
  intros Htrim Hp Hm.
  rewrite (RRToRecord_Done (dns.SOA hdr _ _ _ _ _ _ _) origin trimmed Htrim).
  eexists. split; [done|]. simpl.
  assert (∀ t, " " +:+ t = String " " t) as Hsp by done. rewrite !Hsp.
  rewrite (Split_cons " " primary _ Hp), (Split_cons " " mbox _ Hm).
  rewrite (Split_cons " " (strconv.FormatUint serial)),
    (Split_cons " " (strconv.FormatUint refresh)),
    (Split_cons " " (strconv.FormatUint retry)),
    (Split_cons " " (strconv.FormatUint expire)),
    (Split_without " " (strconv.FormatUint minttl))
    by apply FormatUint_without_space.
  done.
Qed.

(** [RR] reads the type, the FQDN, the target and the TTL of a record, and
    the priority of an MX record; the short name, the metadata, the
    provider handle, and the priority of any other record make no
    difference to its outcome. *)
Theorem RR_reads (r r' : RecordConfig) :
  Type_ r = Type_ r' → NameFQDN r = NameFQDN r' → Target r = Target r' →
  TTL r = TTL r' →
  (dns_StringToType !! Type_ r = Some dns.TypeMX → Priority r = Priority r') →
  RR r = RR r'.
Proof.
  intros Hty Hfq Htg Httl Hprio. unfold RR, RR_line.
  rewrite <- Hty, <- Hfq, <- Htg, <- Httl.
  destruct (dns_StringToType !! Type_ r) as [rdtype|]; [|done].
  destruct (decide (rdtype = dns.TypeMX)) as [->|]; [|done].
  by rewrite Hprio.
Qed.

(** For a type that is neither MX nor TXT, a record with TTL 0 and the same
    record with the default TTL have the same outcome: the wire does not
    tell them apart. *)
Theorem RR_generic_zero_is_default (r r' : RecordConfig) :
  dns_StringToType !! Type_ r ≠ Some dns.TypeMX →
  dns_StringToType !! Type_ r ≠ Some dns.TypeTXT →
  Type_ r = Type_ r' → NameFQDN r = NameFQDN r' → Target r = Target r' →
  TTL r = 0 → TTL r' = DefaultTTL →
  RR r = RR r'.
Proof.
  intros Hmx Htxt Hty Hfq Htg Hz Hd. unfold RR, RR_line.
  rewrite <- Hty, <- Hfq, <- Htg, Hz, Hd.
  destruct (dns_StringToType !! Type_ r) as [rdtype|]; [|done].
  destruct (decide (rdtype = dns.TypeMX)); [congruence|].
  destruct (decide (rdtype = dns.TypeTXT)); [congruence|].
  rewrite (decide_True (P := 0 = 0)) by done.
  by rewrite (decide_False (P := DefaultTTL = 0)) by (unfold DefaultTTL; lia).
Qed.

End WireAndBack.

(** ** More on [Copy] *)

(** *** When it fails *)






(** *** Nil and empty *)

Lemma encode_strings_nil (h : heap) (r : ref) (w : option (gmap string string)) :
  encode_strings h r = Ok w → w = None ↔ r = None.
Proof.
  destruct r as [a|]; simpl; [|by intros [= <-]].
  destruct (h !! a) as [[]|]; try done. by intros [= <-].
Qed.

Lemma encode_ints_nil (h : heap) (r : ref) (w : option (gmap string Z)) :
  encode_ints h r = Ok w → w = None ↔ r = None.
Proof.
  destruct r as [a|]; simpl; [|by intros [= <-]].
  destruct (h !! a) as [[]|]; try done. by intros [= <-].
Qed.

Lemma decode_strings_nil (h h' : heap) (w : option (gmap string string)) (r : ref) :
  decode_strings h w = (h', r) → r = None ↔ w = None.
Proof.
  destruct w as [m|]; unfold decode_strings; [|by intros [= <- <-]].
  destruct (alloc h _) as [h1 a]. by intros [= <- <-].
Qed.

Lemma decode_ints_nil (h h' : heap) (w : option (gmap string Z)) (r : ref) :
  decode_ints h w = (h', r) → r = None ↔ w = None.
Proof.
  destruct w as [m|]; unfold decode_ints; [|by intros [= <- <-]].
  destruct (alloc h _) as [h1 a]. by intros [= <- <-].
Qed.

Lemma decode_records_nil (h h' : heap) (ws : list RecordConfigGob) (r : ref) :
  decode_records h ws = (h', r) → r = None ↔ ws = [].
Proof.
  destruct ws as [|w ws]; unfold decode_records; [by intros [= <- <-]|].
  destruct (decode_record_elems h _) as [h1 ps].
  destruct (alloc h1 _) as [h2 a]. by intros [= <- <-].
Qed.

Lemma decode_nameservers_nil (h h' : heap) (ws : list ns.Nameserver) (r : ref) :
  decode_nameservers h ws = (h', r) → r = None ↔ ws = [].
Proof.
  destruct ws as [|w ws]; unfold decode_nameservers; [by intros [= <- <-]|].
  destruct (decode_nameserver_elems h _) as [h1 ps].
  destruct (alloc h1 _) as [h2 a]. by intros [= <- <-].
Qed.

(** In the copy of a domain a map is [nil] exactly when the map of the
    source is [nil] (an empty map that is not [nil] is copied to a new
    empty map), and a slice is [nil] exactly when the slice of the source
    has no element: [Copy] turns an empty slice into [nil]. *)
Theorem Copy_nil_and_empty (h h' : heap) (dc new : addr)
    (d : dc.DomainConfig_ ref ref ref ref) (v : DomainConfig) :
  h !! dc = Some (ADomainConfig d) →
  read_domain h (Some dc) = Some v →
  DomainConfig_Copy h dc = (h', new, None) →
  ∃ d', h' !! new = Some (ADomainConfig d') ∧
    (dc.DNSProviders d' = None ↔ dc.DNSProviders d = None) ∧
    (dc.Metadata d' = None ↔ dc.Metadata d = None) ∧
    (dc.Records d' = None ↔ dc.Records v = []) ∧
    (dc.Nameservers d' = None ↔ dc.Nameservers v = []).
Proof.
  intros Hd Hv. unfold DomainConfig_Copy.
  destruct (alloc h _) as [h1 new'] eqn:Ha.
  pose proof (alloc_subseteq _ _ _ _ Ha) as H01.
  destruct (framed_weaken read_domain footprint_domain h h1 _ v Hv H01) as [Hv1 _].
  pose proof (lookup_weaken _ _ _ _ Hd H01) as Hd1.
  unfold copyObj. destruct (Encode h1 dc) as [w|e] eqn:Hw; [|done].
  intros [= <- <-]. simpl in Hw.
  pose proof (encode_domain_read _ _ _ Hw) as Hw'. rewrite Hv1 in Hw'.
  injection Hw' as ->.
  unfold encode_domain in Hw. rewrite Hd1 in Hw.
  destruct (encode_ints h1 _) as [providers|] eqn:H1; [|done].
  destruct (encode_strings h1 _) as [meta|] eqn:H2; [|done].
  destruct (encode_records h1 _) as [records|] eqn:H3; [|done].
  destruct (encode_nameservers h1 _) as [nameservers|] eqn:H4; [|done].
  simpl in Hw. injection Hw as <-.
  simpl. unfold decode_domain. simpl.
  destruct (decode_ints h1 providers) as [h2 providers'] eqn:E1.
  destruct (decode_strings h2 meta) as [h3 meta'] eqn:E2.
  destruct (decode_records h3 records) as [h4 records'] eqn:E3.
  destruct (decode_nameservers h4 nameservers) as [h5 nameservers'] eqn:E4.
  eexists. split; [apply lookup_insert_eq|]. simpl.
  rewrite (decode_ints_nil _ _ _ _ E1), (encode_ints_nil _ _ _ H1).
  rewrite (decode_strings_nil _ _ _ _ E2), (encode_strings_nil _ _ _ H2).
  rewrite (decode_records_nil _ _ _ _ E3), (decode_nameservers_nil _ _ _ _ E4).
  repeat split; try done.
  - by intros ->.
  - by intros ?%fmap_nil_inv.
Qed.

(** *** The records of a copy share nothing *)

Lemma footprint_record_in_union (h : heap) (ps : list ref) (i : nat) (p : ref) :
  ps !! i = Some p → footprint_record h p ⊆ ⋃ (footprint_record h <$> ps).
Proof.
  intros Hp a Ha. apply elem_of_union_list. exists (footprint_record h p).
  split; [|done]. apply list_elem_of_fmap. exists p. split; [done|].
  by eapply list_elem_of_lookup_2.
Qed.

Lemma separate_agree (h h' : heap) (ps : list ref) :
  (∀ p, p ∈ ps → agree_on (footprint_record h p) h h') →
  separate h ps → separate h' ps.
Proof.
  intros Hagree Hsep i j p q Hp Hq Hij.
  rewrite (framed_footprint (read := read_record)
             (footprint := footprint_record) h h' p),
    (framed_footprint (read := read_record)
       (footprint := footprint_record) h h' q).
  - by eapply Hsep.
  - apply Hagree. by eapply list_elem_of_lookup_2.
  - apply Hagree. by eapply list_elem_of_lookup_2.
Qed.

Lemma decode_record_elems_separate (ws : list RecordConfigGob) (h h' : heap)
    (ps : list ref) :
  decode_record_elems h ws = (h', ps) →
  Forall is_Some ps ∧ separate h' ps.
Proof.
  revert h h' ps. induction ws as [|w ws IH]; intros h h' ps.
  - intros [= <- <-]. split; [constructor|]. by intros i j p q ?.
  - cbn [decode_record_elems].
    destruct (alloc h (ARecordConfig RecordConfig_nil)) as [h1 a] eqn:Ha.
    destruct (decode_record_elems (decode_record w h1 a) ws) as [h3 ps'] eqn:Hrest.
    intros [= <- <-].
    destruct (IH _ _ _ Hrest) as [Hsome Hsep].
    split; [constructor; [by eexists | done]|].
    pose proof (decode_record_elems_built _ _ _ _ Hrest) as (H23 & _ & Hfps).
    assert (built read_record footprint_record h (decode_record w h1 a) (Some a)
                  (RecordConfig_of_gob w)) as (_ & Hv & _).
    { eapply alloc_then_into; [apply _ | done |].
      apply decode_record_built. rewrite (dom_alloc _ _ _ _ Ha). set_solver. }
    pose proof (framed_dom (read := read_record) _ _ _ Hv) as Hdom.
    destruct (framed_weaken read_record footprint_record _ h3 _ _ Hv H23)
      as [_ Hfp3].
    assert (∀ j q, ps' !! j = Some q →
                   footprint_record h3 (Some a) ## footprint_record h3 q) as Hhead.
    { intros j q Hq. pose proof (footprint_record_in_union h3 ps' j q Hq).
      rewrite Hfp3. clear Hfp3. set_solver. }
    intros [|i] [|j] p q Hp Hq Hij; simpl in *.
    + done.
    + injection Hp as <-. by eapply Hhead.
    + injection Hq as <-. symmetry. by eapply Hhead.
    + eapply Hsep; [done..|]. congruence.
Qed.

Lemma separate_NoDup (h : heap) (ps : list ref) :
  Forall is_Some ps → separate h ps → NoDup ps.
Proof.
  intros Hsome Hsep. apply NoDup_alt. intros i j p Hi Hj.
  destruct (decide (i = j)) as [|Hij]; [done|]. exfalso.
  pose proof (Hsep i j p p Hi Hj Hij) as Hdisj.
  assert (is_Some p) as [a ->].
  { eapply Forall_forall; [exact Hsome|]. by eapply list_elem_of_lookup_2. }
  unfold footprint_record in Hdisj. simpl in Hdisj. set_solver.
Qed.

(** [Copy] does not keep the sharing inside a domain: in the copy every
    position of the record slice holds a pointer, no pointer is [nil], no
    two are the same, and no two of the records share storage, whether or
    not the slice of the source holds one pointer twice. *)
Theorem Copy_unshares (h h' : heap) (dc new : addr) :
  DomainConfig_Copy h dc = (h', new, None) →
  ∃ d', h' !! new = Some (ADomainConfig d') ∧
    ∀ a, dc.Records d' = Some a →
      ∃ ps, h' !! a = Some (RecordPtrs ps) ∧
            Forall is_Some ps ∧ NoDup ps ∧ separate h' ps.
Proof.
  unfold DomainConfig_Copy.
  destruct (alloc h _) as [h1 new'] eqn:Ha.
  pose proof (alloc_lookup _ _ _ _ Ha) as Hnew.
  unfold copyObj. destruct (Encode h1 dc) as [w|e] eqn:Hw; [|done].
  intros [= <- <-]. simpl. unfold decode_domain.
  destruct (decode_ints h1 _) as [h2 providers'] eqn:E1.
  destruct (decode_strings h2 _) as [h3 meta'] eqn:E2.
  destruct (decode_records h3 _) as [h4 records'] eqn:E3.
  destruct (decode_nameservers h4 _) as [h5 nameservers'] eqn:E4.
  eexists. split; [apply lookup_insert_eq|]. simpl. intros a ->.
  apply decode_ints_built in E1 as (H12 & _).
  apply decode_strings_built in E2 as (H23 & _).
  apply decode_nameservers_built in E4 as (H45 & _).
  unfold decode_records in E3. destruct (dc.Records w) as [|w0 ws]; [done|].
  destruct (decode_record_elems h3 (w0 :: ws)) as [h3' ps] eqn:Hps.
  destruct (alloc h3' (RecordPtrs ps)) as [h4' a'] eqn:Ha'.
  injection E3 as <- <-.
  pose proof (decode_record_elems_built _ _ _ _ Hps) as (H33' & Hvs & Hfps).
  destruct (decode_record_elems_separate _ _ _ _ Hps) as [Hsome Hsep].
  pose proof (alloc_subseteq _ _ _ _ Ha') as H3'4.
  pose proof (alloc_fresh _ _ _ _ Ha') as [Hfresh _].
  assert (h1 ⊆ h3) as H13 by by etrans.
  assert (new' ∈ dom h3) as Hnew3.
  { apply elem_of_dom. exists (ADomainConfig DomainConfig_nil).
    by eapply lookup_weaken. }
  assert (h3' ⊆ h5) as H3'5 by by etrans.
  set (c := ADomainConfig _).
  assert (separate (<[new' := c]> h5) ps) as Hsep'.
  { eapply separate_agree; [|done]. intros p Hp b Hb.
    apply list_elem_of_lookup_1 in Hp as [i Hi].
    pose proof (footprint_record_in_union h3' ps i p Hi) as Hin.
    pose proof (mapM_framed_dom read_record footprint_record _ _ _ Hvs) as Hdom.
    assert (b ≠ new') by set_solver.
    rewrite lookup_insert_ne by done.
    apply (agree_on_subseteq (dom h3') _ _ H3'5); [done | set_solver]. }
  exists ps. split; [|split; [done|split; [by eapply separate_NoDup | done]]].
  rewrite lookup_insert_ne.
  - eapply lookup_weaken; [by eapply alloc_lookup | done].
  - intros <-. apply Hfresh. apply subseteq_dom in H33'. set_solver.
Qed.

(** ** The properties at concrete records *)

(** The reference implementation as an instance of [Externals]. *)
Module StdInstance.

#[export] Instance externals : Externals := {|
  dns_StringToType := Std.StringToType;
  dns_TypeToString := Std.TypeToString;
  dns_NewRR := Std.NewRR;
  dns_RRString := Std.RRString;
  dnsutil_TrimDomainName := Std.TrimDomainName;
  net_IPString := Std.IPString;
  net_ParseIP := Std.ParseIPv4;
  strings_MapToLower := Std.MapToLower;
  strings_MapToLower_lower := Std_MapToLower_lower;
|}.

End StdInstance.

Module Concrete.
Import Std StdInstance Examples.

(** An MX record with TTL 0 goes to the wire with TTL 0. *)
Lemma RR_special_cases_keep_TTL_mail :
  ∃ rr, RR mail = Returns (Some rr) ∧
        dns.Header rr = {| dns.Name := "example.com."; dns.Rrtype := 15;
                           dns.Class := 1; dns.Ttl := 0 |}.
Proof.
  exact (RR_special_cases_keep_TTL mail dns.TypeMX eq_refl (or_introl eq_refl)).
Defined.

(** The same record after the round trip: the TTL is still 0. *)
Lemma roundtrip_MX_TXT_keeps_TTL_mail :
  ∃ rr rc, RR mail = Returns (Some rr) ∧
    RRToRecord rr "example.com" = Done (Some rc, None) ∧
    Type_ rc = "MX" ∧ Name rc = "@" ∧ NameFQDN rc = "example.com" ∧
    Target rc = "mail.example.com." ∧
    (dns.TypeMX = dns.TypeMX → Priority rc = 10) ∧
    TTL rc = 0.
Proof.
  exact (roundtrip_MX_TXT_keeps_TTL mail dns.TypeMX "example.com"
           eq_refl (or_introl eq_refl) eq_refl eq_refl eq_refl eq_refl).
Defined.


(** With the empty origin [RRToRecord] panics, on a record it has a case
    for and on one it has none for. *)
Lemma RRToRecord_panics :
  RRToRecord cname_rr "" = Panics ∧ RRToRecord srv_rr "" = Panics.
Proof. split; reflexivity. Qed.

(** What [RRToRecord] does at an origin, for the two records: a record,
    and the error. *)
Lemma RRToRecord_record_or_error_example :
  (∃ rc, RRToRecord cname_rr "example.com" = Done (Some rc, None)) ∧
  RRToRecord srv_rr "example.com"
    = Done (None, Some "unimplemented zone record type=SRV (example.com. 300)") ∧
  RRToRecord cname_rr "" = Panics.
Proof.
  split; [exact (RRToRecord_record_or_error cname_rr "example.com")|].
  split; [exact (RRToRecord_record_or_error srv_rr "example.com")|].
  exact (RRToRecord_record_or_error cname_rr "").
Defined.

(** [strings.ToLower] on a name with a letter outside ASCII, a capital E
    with an acute accent (0xC3 0x89 in UTF-8), and on an ASCII name. *)
Example ToLower_latin1 :
  strings.ToLower (String (ascii_of_N 195) (String (ascii_of_N 137) "COLE.Example"))
    = String (ascii_of_N 195) (String (ascii_of_N 169) "cole.example") ∧
  strings.ToLower "WWW.Example.COM" = "www.example.com".
Proof. split; reflexivity. Qed.

(** A TXT record with two segments. *)
Lemma RRToRecord_TXT_joined_example :
  ∃ rc, RRToRecord (dns.TXT {| dns.Name := "example.com."; dns.Rrtype := 16;
                               dns.Class := 1; dns.Ttl := 300 |}
                            ["v=spf1"; "-all"]) "example.com"
          = Done (Some rc, None) ∧
        Target rc = "v=spf1 -all".
Proof.
  exact (proj1 (RRToRecord_TXT_joined
                  {| dns.Name := "example.com."; dns.Rrtype := 16;
                     dns.Class := 1; dns.Ttl := 300 |}
                  "example.com" "@" eq_refl) ["v=spf1"; "-all"]).
Defined.

(** A TXT record with TTL 0 goes to the wire with TTL 0, its target as the
    one segment. *)
Example RR_note :
  RR note = Returns (Some (dns.TXT {| dns.Name := "example.com.";
                                      dns.Rrtype := 16; dns.Class := 1;
                                      dns.Ttl := 0 |} ["v=spf1 -all"])).
Proof. reflexivity. Qed.

(** An A record with TTL 0 goes through the parser with the default
    TTL. *)
Example RR_www :
  RR www = Returns (Some (dns.A {| dns.Name := "www.example.com.";
                                   dns.Rrtype := 1; dns.Class := 1;
                                   dns.Ttl := 300 |}
                                (net.IPv4 192 168 0 1))).
Proof. reflexivity. Qed.

(** [InterfaceToIP] turns down a [uint32], answers a string that is no
    address with an error that quotes the string and not its type, and
    takes the number 1.5 for the address 0.0.0.1. *)
Lemma InterfaceToIP_not_by_shape :
  InterfaceToIP (λ _, 0) (any_uint32 3232235521)
    = (None, Some "Cannot convert type uint32 to ip.") ∧
  InterfaceToIP (λ _, 0) (any_string "localhost")
    = (None, Some "localhost is not a valid ip address") ∧
  InterfaceToIP (λ _, 0) (any_float64 (S754_finite false 3 (-1)))
    = (Some (net.IPv4 0 0 0 1), None).
Proof. repeat split. Qed.

(** An address in dotted decimal; the packed address in dotted decimal. *)
Example InterfaceToIP_dotted :
  InterfaceToIP (λ _, 0) (any_string "192.168.0.1")
    = (Some (net.IPv4 192 168 0 1), None) ∧
  net_IPString (UintToIP 3232235521) = "192.168.0.1".
Proof. split; reflexivity. Qed.

(** The copy of the domain of [store0]: same value, all storage new
    (the record the two pointers shared is there twice). *)
Example DomainConfig_Copy_store0 :
  let '(h', new, err) := DomainConfig_Copy store0 1%positive in
  err = None ∧ new = 6%positive ∧
  is_Some (read_domain store0 (Some 1%positive)) ∧
  read_domain h' (Some new) = read_domain store0 (Some 1%positive) ∧
  footprint_domain h' (Some 1%positive) = list_to_set [1; 2; 3; 4; 5]%positive ∧
  footprint_domain h' (Some new) = list_to_set [6; 7; 8; 9; 10; 11; 12]%positive.
Proof. vm_compute. repeat split. by eexists. Qed.

(** The copy of the record of [store0]. *)
Example RecordConfig_Copy_store0 :
  let '(h', new, err) := RecordConfig_Copy store0 4%positive in
  err = None ∧ new = 6%positive ∧
  read_record h' (Some new) = read_record store0 (Some 4%positive) ∧
  footprint_record h' (Some new) = list_to_set [6; 7]%positive.
Proof. vm_compute. repeat split. Qed.

(** The copy of the domain of [store2] has the same value, with a new
    empty map, and with [nil] for the two slices. *)
Example DomainConfig_Copy_store2 :
  let '(h', new, err) := DomainConfig_Copy store2 1%positive in
  err = None ∧
  read_domain h' (Some new) = read_domain store2 (Some 1%positive) ∧
  h' !! new = Some (ADomainConfig
                      {| dc.Name := "example.com"; dc.Registrar := "none";
                         dc.DNSProviders := None; dc.Metadata := Some 6%positive;
                         dc.Records := None; dc.Nameservers := None;
                         dc.KeepUnknown := false |}) ∧
  h' !! 6%positive = Some (MapStringString ∅).
Proof. vm_compute. repeat split. Qed.

(** [Copy] fails on a record that holds a provider handle, on a domain
    with such a record, and on a domain with a [nil] record pointer. *)
Example Copy_fails :
  (RecordConfig_Copy store1 4%positive).2
    = Some "gob: type not registered for interface: route53.ResourceRecordSet" ∧
  (DomainConfig_Copy store1 1%positive).2
    = Some "gob: type not registered for interface: route53.ResourceRecordSet" ∧
  (DomainConfig_Copy (<[3%positive := RecordPtrs [None]]> store0) 1%positive).2
    = Some "gob: encodeArray: nil element".
Proof. vm_compute. repeat split. Qed.

(** [Copy] takes a record whose handle is a string, and the copy holds the
    string. *)
Example Copy_basic_handle :
  let '(h', new, err) := RecordConfig_Copy store3 4%positive in
  err = None ∧
  deep_record h' (Some new) = deep_record store3 (Some 4%positive) ∧
  Original <$> deep_record h' (Some new) = Some (Some (basic "string" "handle-123")) ∧
  (DomainConfig_Copy store3 1%positive).2 = None.
Proof. vm_compute. repeat split. Qed.



(** The round trip of an A record with TTL 0, through the parser of
    [Std]: the TTL comes back as the default. *)
Lemma roundtrip_generic_www :
  RR www = Returns (Some (dns.A {| dns.Name := "www.example.com.";
                                   dns.Rrtype := 1; dns.Class := 1;
                                   dns.Ttl := 300 |}
                                (net.IPv4 192 168 0 1))) ∧
  ∃ rc, RRToRecord (dns.A {| dns.Name := "www.example.com."; dns.Rrtype := 1;
                             dns.Class := 1; dns.Ttl := 300 |}
                          (net.IPv4 192 168 0 1)) "example.com" = Done (Some rc, None) ∧
    Type_ rc = "A" ∧ Name rc = "www" ∧ NameFQDN rc = "www.example.com" ∧
    Target rc = "192.168.0.1" ∧ TTL rc = 300.
Proof.
  exact (roundtrip_generic www dns.TypeA "example.com" _
           eq_refl ltac:(done) ltac:(done) eq_refl (conj eq_refl eq_refl)
           eq_refl eq_refl eq_refl eq_refl).
Defined.

(** The three outcomes of [RR], by the theorem. *)
Lemma RR_fatal_or_returns_outcomes :
  RR bogus = Fatal (NoSuchDNSType "BOGUS") ∧
  RR unparsable = Fatal (NewRRRejected "www.example.com 300 IN A not an address"
                                       "not an address" "dns: garbage") ∧
  (∃ rr, RR www = Returns (Some rr)) ∧
  (∃ rr, RR mail = Returns (Some rr)).
Proof.
  split; [exact (proj1 (RR_fatal_or_returns bogus) eq_refl)|].
  split; [exact (proj1 (proj2 (RR_fatal_or_returns unparsable))
                   dns.TypeA None "dns: garbage" eq_refl
                   ltac:(done) ltac:(done) eq_refl)|].
  split.
  - exact (proj2 (proj2 (RR_fatal_or_returns www)) dns.TypeA eq_refl
             (or_intror (or_intror (ex_intro _ _ eq_refl)))).
  - exact (proj2 (proj2 (RR_fatal_or_returns mail)) dns.TypeMX eq_refl
             (or_introl eq_refl)).
Defined.

(** A number, an address in text, a text that is no address, a boolean. *)
Lemma InterfaceToIP_by_dynamic_type_values :
  InterfaceToIP (λ _, 0) (any_float64 (S754_finite false 3232235521 0))
    = (Some (net.IPv4 192 168 0 1), None) ∧
  InterfaceToIP (λ _, 0) (any_float64 (S754_finite false 6778489187336192 (-21)))
    = (Some (net.IPv4 192 168 0 1), None) ∧
  InterfaceToIP (λ _, 0) (any_string "192.168.0.1")
    = (Some (net.IPv4 192 168 0 1), None) ∧
  InterfaceToIP (λ _, 0) (any_string "localhost")
    = (None, Some "localhost is not a valid ip address") ∧
  InterfaceToIP (λ _, 0) (any_bool true)
    = (None, Some "Cannot convert type bool to ip.").
Proof.
  pose proof (InterfaceToIP_by_dynamic_type (λ _, 0)) as (Hnum & _ & Hip & Hno & Hother & _).
  split; [exact (Hnum (S754_finite false 3232235521 0) 3232235521
                   eq_refl ltac:(done))|].
  split; [exact (Hnum (S754_finite false 6778489187336192 (-21)) 3232235521
                   eq_refl ltac:(done))|].
  split; [exact (Hip "192.168.0.1" _ eq_refl)|].
  split; [exact (Hno "localhost" eq_refl)|].
  exact (Hother (any_bool true)).
Defined.

(** Three records, two of them under one key, with different TTLs. *)
Lemma Grouped_stable_partition_three :
  Grouped [www; mail; www2] !! {| key_Type := "A"; key_Name := "www" |}
    = Some [www; www2] ∧
  Grouped [www; mail; www2] !! {| key_Type := "MX"; key_Name := "@" |}
    = Some [mail] ∧
  (∃ l, Grouped [www; mail; www2] !! key_of www2 = Some l ∧ www2 ∈ l).
Proof.
  pose proof (Grouped_stable_partition [www; mail; www2]) as (Hiff & Hin & _).
  assert (∀ (r : RecordConfig) l, r :: l ≠ []) as Hcons by done.
  split; [exact (proj2 (Hiff {| key_Type := "A"; key_Name := "www" |} [www; www2])
                   (conj eq_refl (Hcons _ _)))|].
  split; [exact (proj2 (Hiff {| key_Type := "MX"; key_Name := "@" |} [mail])
                   (conj eq_refl (Hcons _ _)))|].
  apply Hin. by right; right; left.
Defined.

(** The renderings of the nil receiver, of an MX record, and of a record
    with one metadata entry. *)
Lemma String_nil_safe_and_form_renderings :
  String_returns None "?" ∧
  String_returns (Some mail) "MX example.com mail.example.com. 0 priority=10" ∧
  String_from (Some tagged) [("owner", "ops")]
    = "A www.example.com 192.168.0.1 300 owner=ops".
Proof.
  pose proof String_nil_safe_and_form as (Hnil & Hform & Hbare & _).
  split; [exact (proj2 (Hnil "?") eq_refl)|].
  split; [exact (proj2 (Hbare mail _ eq_refl) eq_refl)|].
  exact (Hform tagged [("owner", "ops")]).
Defined.

(** The second of two domains is found under its name. *)
Lemma FindDomain_unique_org :
  FindDomain config "example.org" = Some example_org.
Proof.
  apply (FindDomain_unique config example_org).
  - apply (bool_decide_unpack _). vm_compute. exact I.
  - right. left.
Defined.

(** A record with one metadata entry: the rendering that goes by the
    map's entries is the one rendering. *)
Lemma String_renderings_tagged :
  String.length (String_from (Some tagged) (map_to_list (Metadata tagged))) = 43%nat ∧
  ((size (Metadata tagged) ≤ 1)%nat →
   String_from (Some tagged) (map_to_list (Metadata tagged))
     = "A www.example.com 192.168.0.1 300 owner=ops").
Proof.
  assert (∀ range, range ≡ₚ map_to_list (Metadata tagged) →
                   String_returns (Some tagged) (String_from (Some tagged) range))
    as Hs by (intros range ?; by exists range).
  refine (String_renderings (Some tagged)
            (String_from (Some tagged) (map_to_list (Metadata tagged)))
            "A www.example.com 192.168.0.1 300 owner=ops" _ _).
  - apply Hs. reflexivity.
  - apply (Hs [("owner", "ops")]). simpl. by rewrite map_to_list_singleton.
Defined.

(** An MX record with a lower-case absolute name of class IN comes back
    as it was. *)
Lemma RRToRecord_RR_special_mail :
  ∃ rc, RRToRecord mail_rr "example.com" = Done (Some rc, None) ∧
        RR rc = Returns (Some mail_rr).
Proof.
  exact (proj1 (RRToRecord_RR_special
                  {| dns.Name := "example.com."; dns.Rrtype := 15;
                     dns.Class := 1; dns.Ttl := 3600 |}
                  "example.com" "MX" "@" eq_refl eq_refl eq_refl)
           eq_refl 10 "mail.example.com.").
Defined.

(** The decoded CNAME record is in normal form. *)
Lemma RRToRecord_normal_form_cname :
  @None error = None ∧
  strings.ToLower (Name cname_rc) = Name cname_rc ∧
  strings.ToLower (NameFQDN cname_rc) = NameFQDN cname_rc ∧
  Metadata cname_rc = ∅ ∧ Original cname_rc = None ∧ Priority cname_rc = 0.
Proof.
  exact (RRToRecord_normal_form cname_rr "example.com" cname_rc None eq_refl).
Defined.

(** The fields of a decoded SOA record. *)
Lemma RRToRecord_SOA_fields_example :
  ∃ rc, RRToRecord soa_rr "example.com" = Done (Some rc, None) ∧
        Split " " (Target rc) =
          ["ns1.example.com."; "hostmaster.example.com."; "2016100401"; "7200";
           "3600"; "1209600"; "300"].
Proof.
  exact (RRToRecord_SOA_fields
           {| dns.Name := "example.com."; dns.Rrtype := 6; dns.Class := 1;
              dns.Ttl := 3600 |}
           "example.com" "@" "ns1.example.com." "hostmaster.example.com."
           2016100401 7200 3600 1209600 300 eq_refl eq_refl eq_refl).
Defined.

(** The short name, the metadata, the handle, and the priority of an A
    record make no difference on the wire. *)
Lemma RR_reads_www2 : RR www2_decorated = RR www2.
Proof.
  apply RR_reads; try reflexivity.
  intros Hmx. vm_compute in Hmx. discriminate Hmx.
Defined.

(** An A record with TTL 0 and one with TTL 300 are the same record on
    the wire. *)
Lemma RR_generic_zero_is_default_www : RR www = RR tagged.
Proof.
  apply RR_generic_zero_is_default; try reflexivity.
  - intros Hmx. vm_compute in Hmx. discriminate Hmx.
  - intros Htxt. vm_compute in Htxt. discriminate Htxt.
Defined.

(** The copy of the domain of [store2]: the empty map is a map, the two
    empty slices are [nil]. *)
Lemma Copy_nil_and_empty_store2 :
  ∃ d', (DomainConfig_Copy store2 1%positive).1.1
          !! (DomainConfig_Copy store2 1%positive).1.2 = Some (ADomainConfig d') ∧
    (dc.DNSProviders d' = None ↔ dc.DNSProviders store2_domain = None) ∧
    (dc.Metadata d' = None ↔ dc.Metadata store2_domain = None) ∧
    (dc.Records d' = None ↔ dc.Records store2_value = []) ∧
    (dc.Nameservers d' = None ↔ dc.Nameservers store2_value = []).
Proof.
  apply (Copy_nil_and_empty store2 _ 1%positive _ store2_domain store2_value).
  - reflexivity.
  - vm_compute. reflexivity.
  - vm_compute. reflexivity.
Defined.

(** The copy of the domain of [store0], whose slice holds one pointer
    twice: the slice of the copy holds two pointers, to two records with
    a map each. *)
Lemma Copy_unshares_store0 :
  ∃ d', (DomainConfig_Copy store0 1%positive).1.1
          !! (DomainConfig_Copy store0 1%positive).1.2 = Some (ADomainConfig d') ∧
    ∀ a, dc.Records d' = Some a →
      ∃ ps, (DomainConfig_Copy store0 1%positive).1.1 !! a = Some (RecordPtrs ps) ∧
            Forall is_Some ps ∧ NoDup ps ∧
            separate (DomainConfig_Copy store0 1%positive).1.1 ps.
Proof.
  apply (Copy_unshares store0 _ 1%positive).
  vm_compute. reflexivity.
Defined.

End Concrete.
